(** * SystemData: the system catalogue of EmulationStation

  A shallow embedding of [es-app/src/SystemData.cpp]: the tokenizer
  [readList], the directory walk [populateFolder], the configuration loader
  [loadConfig], the [SystemData] constructor and the query operations
  ([getGamelistPath], [getThemePath], [getGameCount], [getRandomGame],
  [getRandomSystem]).

  Conventions.
  - [std::string] is [string]; character-level code works on [list ascii].
  - [size_t] and [unsigned int] are [Z] with the wrap-around written out;
    [std::string::npos] is [2^64 - 1].
  - A C++ exception is the outcome [Throws]; a loop is run with fuel and
    the theorems show that the fuel given is enough.
  - The build modelled is the POSIX one ([WIN32] undefined), where
    [generic_string()] is the identity. *)

From Stdlib Require Import ZArith QArith Qround Ascii String List Lia.
From stdpp Require Import base gmap strings list.

Set Warnings "-register-all".
Local Open Scope Z_scope.

(** ** Machine integers and outcomes *)

Definition wrap64 (z : Z) : Z := z mod 2 ^ 64.
Definition wrap32 (z : Z) : Z := z mod 2 ^ 32.

(** [std::string::npos], the largest [size_t]. *)
Definition npos : Z := 2 ^ 64 - 1.

Definition INT_MIN : Z := - 2 ^ 31.
Definition INT_MAX : Z := 2 ^ 31 - 1.

(** How a call ends: it returns, it throws, or its behaviour is undefined
    (control falls off the end of a non-void function, or a [double] is
    converted to an [int] that cannot hold it). *)
Inductive outcome (A : Type) : Type :=
  | Returns (a : A)
  | Throws (what : string)
  | Undefined.
Arguments Returns {A} a.
Arguments Throws {A} what.
Arguments Undefined {A}.

(** ** std::string searches used by readList *)

Module StdString.

Definition size (s : list ascii) : Z := Z.of_nat (length s).

(** Membership of a character in the delimiter C string. *)
Definition is_delim (delims : list ascii) (c : ascii) : bool :=
  bool_decide (c ∈ delims).

(** First index, counted from [i], of an element of [l] that satisfies
    [p]; [npos] when there is none. *)
Fixpoint find_if (p : ascii → bool) (l : list ascii) (i : Z) : Z :=
  match l with
  | [] => npos
  | c :: l' => if p c then i else find_if p l' (i + 1)
  end.

(** [str.find_first_of(delims, pos)]. *)
Definition find_first_of (str delims : list ascii) (pos : Z) : Z :=
  if size str <=? pos then npos
  else find_if (is_delim delims) (drop (Z.to_nat pos) str) pos.

(** [str.find_first_not_of(delims, pos)]. *)
Definition find_first_not_of (str delims : list ascii) (pos : Z) : Z :=
  if size str <=? pos then npos
  else find_if (λ c, negb (is_delim delims c)) (drop (Z.to_nat pos) str) pos.

(** [str.substr(pos, n)]: throws [std::out_of_range] when [pos > size()],
    otherwise the [min n (size - pos)] characters from [pos]. *)
Definition substr (str : list ascii) (pos n : Z) : outcome (list ascii) :=
  if size str <? pos then Throws "out_of_range"
  else Returns (take (Z.to_nat (Z.min n (size str - pos)))
                     (drop (Z.to_nat pos) str)).

End StdString.

(** ** readList *)

(** The [while] loop of [readList]; [None] when the fuel runs out. *)
Fixpoint readList_loop (fuel : nat) (str delims : list ascii)
    (prevOff off : Z) (ret : list (list ascii))
    : option (outcome (list (list ascii))) :=
  if negb (off =? npos) || negb (prevOff =? npos) then
    match fuel with
    | O => None
    | S fuel' =>
        match StdString.substr str prevOff (wrap64 (off - prevOff)) with
        | Throws e => Some (Throws e)
        | Undefined => Some Undefined
        | Returns tok =>
            let ret := ret ++ [tok] in
            let prevOff := StdString.find_first_not_of str delims off in
            let off := StdString.find_first_of str delims prevOff in
            readList_loop fuel' str delims prevOff off ret
        end
    end
  else Some (Returns ret).

Definition readList_chars (str delims : list ascii)
    : option (outcome (list (list ascii))) :=
  let prevOff := StdString.find_first_not_of str delims 0 in
  let off := StdString.find_first_of str delims prevOff in
  readList_loop (S (length str)) str delims prevOff off [].

(** The default delimiters [" \t\r\n,"]. *)
Definition default_delims : list ascii :=
  [" "; "009"; "013"; "010"; ","]%char.

(** [readList(str, delims)] on [std::string]. *)
Definition readList (str : string) (delims : list ascii)
    : option (outcome (list string)) :=
  match readList_chars (list_ascii_of_string str) delims with
  | None => None
  | Some (Throws e) => Some (Throws e)
  | Some Undefined => Some Undefined
  | Some (Returns l) => Some (Returns (map string_of_list_ascii l))
  end.

(** What it means for [ts] to be the maximal delimiter-free substrings of a
    string, left to right: the string is a run of delimiters, or a run of
    delimiters, a non-empty delimiter-free token that ends at the end of the
    string or right before a delimiter, and the rest, split the same way. *)
Definition at_boundary (delims : list ascii) (rest : list ascii) : Prop :=
  match rest with
  | [] => True
  | c :: _ => c ∈ delims
  end.

Inductive Tokens (delims : list ascii)
    : list ascii → list (list ascii) → Prop :=
  | Tokens_done ds :
      Forall (λ c, c ∈ delims) ds →
      Tokens delims ds []
  | Tokens_next ds tok rest ts :
      Forall (λ c, c ∈ delims) ds →
      tok ≠ [] →
      Forall (λ c, c ∉ delims) tok →
      at_boundary delims rest →
      Tokens delims rest ts →
      Tokens delims (ds ++ tok ++ rest) (tok :: ts).

(** Length of the longest prefix whose elements all satisfy [p]. *)
Fixpoint run_length (p : ascii → bool) (l : list ascii) : nat :=
  match l with
  | [] => O
  | c :: l' => if p c then S (run_length p l') else O
  end.

(** The vector [readList] returns at its call sites. [readList] returns for
    every [std::string], as the section on [readList] below proves, so the
    other cases do not arise there. *)
Definition readList_vec (str : string) : list string :=
  match readList str default_delims with
  | Some (Returns l) => l
  | _ => []
  end.

(** ** boost::filesystem paths

    The operations of [boost::filesystem::path] (version 3) that the file
    uses, on path names in generic form with single separators. *)

Module Path.

Definition slash : ascii := "/"%char.
Definition dot : ascii := "."%char.

(** Last index of [c] in [l], the first element having index [i]. *)
Fixpoint rfind_from (c : ascii) (l : list ascii) (i : nat) : option nat :=
  match l with
  | [] => None
  | x :: l' =>
      match rfind_from c l' (S i) with
      | Some j => Some j
      | None => if bool_decide (x = c) then Some i else None
      end
  end.

Definition rfind (c : ascii) (l : list ascii) : option nat := rfind_from c l O.

(** [p.filename()]: what follows the last separator; ["."] when the path
    ends with a separator, and ["/"] for the root. *)
Definition filename_chars (p : list ascii) : list ascii :=
  match rfind slash p with
  | None => p
  | Some i =>
      match drop (S i) p with
      | [] => if bool_decide (p = [slash]) then p else [dot]
      | rest => rest
      end
  end.

Definition is_dot_or_dotdot (name : list ascii) : bool :=
  bool_decide (name = [dot]) || bool_decide (name = [dot; dot]).

(** [p.stem()]: the filename up to its last dot. *)
Definition stem_chars (p : list ascii) : list ascii :=
  let name := filename_chars p in
  if is_dot_or_dotdot name then name
  else match rfind dot name with
       | None => name
       | Some pos => take pos name
       end.

(** [p.extension()]: the filename from its last dot on. *)
Definition extension_chars (p : list ascii) : list ascii :=
  let name := filename_chars p in
  if is_dot_or_dotdot name then []
  else match rfind dot name with
       | None => []
       | Some pos => drop pos name
       end.

Fixpoint strip_trailing_slashes_rev (r : list ascii) : list ascii :=
  match r with
  | c :: r' => if bool_decide (c = slash) then strip_trailing_slashes_rev r' else r
  | [] => []
  end.

(** [p.parent_path()]: the path without its filename and the separators
    before it; the root directory is its own separator. *)
Definition parent_path_chars (p : list ascii) : list ascii :=
  match rfind slash p with
  | None => []
  | Some i =>
      if bool_decide (p = [slash]) then []
      else match strip_trailing_slashes_rev (rev (take i p)) with
           | [] => [slash]
           | r => rev r
           end
  end.

(** [p / q]: a separator is added between the two unless [p] is empty or
    ends with one, or [q] starts with one; an empty [q] changes nothing. *)
Definition append_chars (p q : list ascii) : list ascii :=
  match q with
  | [] => p
  | c :: _ =>
      if bool_decide (c = slash) then p ++ q
      else match rev p with
           | [] => q
           | d :: _ => if bool_decide (d = slash) then p ++ q
                       else p ++ slash :: q
           end
  end.

Definition filename (p : string) : string :=
  string_of_list_ascii (filename_chars (list_ascii_of_string p)).
Definition stem (p : string) : string :=
  string_of_list_ascii (stem_chars (list_ascii_of_string p)).
Definition extension (p : string) : string :=
  string_of_list_ascii (extension_chars (list_ascii_of_string p)).
Definition parent_path (p : string) : string :=
  string_of_list_ascii (parent_path_chars (list_ascii_of_string p)).
Definition append (p q : string) : string :=
  string_of_list_ascii
    (append_chars (list_ascii_of_string p) (list_ascii_of_string q)).

End Path.

Infix "//" := Path.append (at level 40, left associativity).

(** [s.empty()] *)
Definition empty (s : string) : bool := bool_decide (s = EmptyString).

(** ** The file system as the program observes it *)

(** What [fs::is_directory], [fs::is_symlink], [fs::canonical] and
    [fs::directory_iterator] show at a path: something that is not a
    directory, or a directory with its entries (filename and what is found
    there). A directory reached through a symbolic link carries the
    canonical path the link resolves to. *)
Inductive fs_node : Type :=
  | fs_file
  | fs_dir (canonical_of_symlink : option string)
           (entries : list (string * fs_node)).

Definition is_directory (n : fs_node) : bool :=
  match n with fs_dir _ _ => true | fs_file => false end.

(** ** FileData *)

Inductive FileType : Type := GAME | FOLDER.

(** [enum FileType { GAME = 1, FOLDER = 2 }], used as a bit mask. *)
Definition FileType_code (t : FileType) : Z :=
  match t with GAME => 1 | FOLDER => 2 end.

(** Modelled from the spec: [FileData] is declared in FileData.h, which is
    not part of this file. The model keeps what this file reads and writes:
    the type, the path, the metadata and the children, in the order they
    were added. *)
Inductive FileData : Type :=
  mkFileData (mType : FileType) (mPath : string)
             (metadata : list (string * string)) (mChildren : list FileData).

Definition getType (f : FileData) : FileType :=
  match f with mkFileData t _ _ _ => t end.
Definition getPath (f : FileData) : string :=
  match f with mkFileData _ p _ _ => p end.
Definition getMetadata (f : FileData) : list (string * string) :=
  match f with mkFileData _ _ m _ => m end.
Definition getChildren (f : FileData) : list FileData :=
  match f with mkFileData _ _ _ c => c end.

(** [new FileData(type, path, envData, system)] *)
Definition FileData_new (t : FileType) (path : string) : FileData :=
  mkFileData t path [] [].

(** [folder->addChild(file)]: the child is added at the end. *)
Definition addChild (folder child : FileData) : FileData :=
  match folder with
  | mkFileData t p m cs => mkFileData t p m (cs ++ [child])
  end.

(** [getChildrenByFilename().size()] *)
Definition children_count (f : FileData) : nat := length (getChildren f).

Fixpoint metadata_set (key value : string) (m : list (string * string))
    : list (string * string) :=
  match m with
  | [] => [(key, value)]
  | (k, v) :: m' =>
      if bool_decide (k = key) then (k, value) :: m'
      else (k, v) :: metadata_set key value m'
  end.

Definition set_metadata (key value : string) (f : FileData) : FileData :=
  match f with
  | mkFileData t p m cs => mkFileData t p (metadata_set key value m) cs
  end.

(** Modelled from the spec: [FileFilterIndex] (FileFilterIndex.h, not part
    of this file) decides which files count as displayed: every file while
    no filter is set, the files the filter shows otherwise. *)
Record FileFilterIndex : Type := {
  isFiltered : bool;
  showFile : FileData → bool
}.

(** [new FileFilterIndex()] *)
Definition FileFilterIndex_new : FileFilterIndex :=
  {| isFiltered := false; showFile := λ _, true |}.

(** Modelled from the spec: [FileData::getFilesRecursive(typeMask,
    displayedOnly)] (FileData.cpp, not part of this file) is the recursive
    file list of a folder: its descendants whose type is in the mask, in
    tree order, restricted to the displayed ones when [displayedOnly] is
    set. *)
Fixpoint getFilesRecursive (idx : FileFilterIndex) (typeMask : Z)
    (displayedOnly : bool) (f : FileData) : list FileData :=
  match f with
  | mkFileData _ _ _ children =>
      flat_map
        (λ c,
          (if negb (Z.land (FileType_code (getType c)) typeMask =? 0)
              && (negb displayedOnly || negb (isFiltered idx) || showFile idx c)
           then [c] else [])
          ++ getFilesRecursive idx typeMask displayedOnly c)
        children
  end.

(** ** Systems *)

Inductive PlatformId : Type :=
  | PLATFORM_UNKNOWN
  | PLATFORM_IGNORE
  | PLATFORM (id : nat).

Record SystemEnvironmentData : Type := {
  mStartPath : string;
  mSearchExtensions : list string;
  mLaunchCommand : string;
  mPlatformIds : list PlatformId
}.

(** An entry of [FileSorts::SortTypes]. *)
Inductive SortType : Type := mkSortType (description : string).

(** The theme of a system: the file it was loaded from, or the empty
    [ThemeData]. *)
Definition ThemeData : Type := option string.

Record SystemData : Type := {
  mName : string;
  mFullName : string;
  mEnvData : SystemEnvironmentData;
  mThemeFolder : string;
  mIsCollectionSystem : bool;
  mIsGameSystem : bool;
  mRootFolder : FileData;
  mFilterIndex : FileFilterIndex;
  mTheme : ThemeData
}.

Definition isGameSystem (s : SystemData) : bool := mIsGameSystem s.
Definition getRootFolder (s : SystemData) : FileData := mRootFolder s.
Definition getStartPath (s : SystemData) : string := mStartPath (mEnvData s).

(** ** XML documents (pugixml) *)

(** An element with its PCDATA, when it has any, and its child elements. *)
Inductive xml_node : Type :=
  xml_element (tag : string) (pcdata : option string)
              (children : list xml_node).

Definition xml_tag (n : xml_node) : string :=
  match n with xml_element t _ _ => t end.
Definition xml_pcdata (n : xml_node) : option string :=
  match n with xml_element _ p _ => p end.
Definition xml_children (n : xml_node) : list xml_node :=
  match n with xml_element _ _ c => c end.

(** A node handle; [None] is the null handle. *)
Definition xml_handle : Type := option xml_node.

(** The first element named [name] among [nodes]. *)
Fixpoint first_named (name : string) (nodes : list xml_node) : xml_handle :=
  match nodes with
  | [] => None
  | n :: rest =>
      if bool_decide (xml_tag n = name) then Some n else first_named name rest
  end.

(** [node.child(name)] *)
Definition child (node : xml_handle) (name : string) : xml_handle :=
  match node with
  | None => None
  | Some n => first_named name (xml_children n)
  end.

(** [node.text().get()] *)
Definition text_get (node : xml_handle) : string :=
  match node with
  | Some (xml_element _ (Some t) _) => t
  | _ => EmptyString
  end.

(** [node.text().as_string(def)] *)
Definition text_as_string (node : xml_handle) (def : string) : string :=
  match node with
  | Some (xml_element _ (Some t) _) => t
  | _ => def
  end.

(** The nodes visited by
    [for(n = node.child(name); n; n = n.next_sibling(name))]. *)
Definition children_named (node : xml_handle) (name : string)
    : list xml_node :=
  match node with
  | None => []
  | Some n => filter (λ c, xml_tag c = name) (xml_children n)
  end.

(** ** The environment *)

(** What the program reads from its surroundings during one call: the
    home directory, the boolean settings, the paths that exist, what a
    directory scan finds at a path, and the documents pugixml loads (no
    document: the file cannot be read or is not well-formed). What a call
    writes is recorded as events and is not read back. *)
Record Env : Type := {
  getHomePath : string;
  settings : gmap string bool;
  existing : gset string;
  scan : gmap string fs_node;
  xml_files : gmap string (list xml_node)
}.

(** [Settings::getInstance()->getBool(name)]; an unknown name reads as
    [false]. *)
Definition getBool (env : Env) (name : string) : bool :=
  default false (settings env !! name).

(** [fs::exists(path)] *)
Definition fs_exists (env : Env) (path : string) : bool :=
  bool_decide (path ∈ existing env).

(** What a scan finds at [path]; nothing there is not a directory, and
    the empty path names nothing ([fs::is_directory] of an empty path is
    false). *)
Definition node_at (env : Env) (path : string) : fs_node :=
  if empty path then fs_file else default fs_file (scan env !! path).

(** Code of the repository that is called from this file and defined
    elsewhere: the gamelist merge (Gamelist.cpp), sorting and the sort table
    (FileData.cpp, FileSorts.cpp), the platform table (PlatformId.cpp), the
    theme set and the theme loader (ThemeData.cpp) and the collection
    manager (CollectionSystemManager.cpp). They are parameters. *)
Record Externals : Type := {
  (** [parseGamelist(system)], as its effect on the root folder *)
  parseGamelist : string → SystemEnvironmentData → FileData → FileData;
  (** [folder->sort(type)] *)
  sortFolder : SortType → FileData → FileData;
  (** [FileSorts::SortTypes.at(0)] *)
  SortTypes_at_0 : SortType;
  (** [PlatformIds::getPlatformId(str)] *)
  getPlatformId : string → PlatformId;
  (** [ThemeData::getThemeFromCurrentSet(system)] *)
  getThemeFromCurrentSet : string → string;
  (** whether [mTheme->loadFile(sysData, path)] returns instead of throwing
      a [ThemeException] *)
  themeLoads : string → bool;
  (** [CollectionSystemManager::get()->loadCollectionSystems()], as its
      effect on [sSystemVector] *)
  loadCollectionSystems : list SystemData → list SystemData
}.

(** Effects on the outside world and calls into other modules, in the order
    they happen. *)
Inductive Event : Type :=
  | EvPopulateFolder (path : string)
  | EvParseGamelist (system : string)
  | EvSortRoot (by_type : SortType)
  | EvUpdateGamelist (system : string)
  | EvWriteExampleConfig (path : string)
  | EvCreateDirectories (path : string)
  | EvLoadCollectionSystems.

(** ** populateFolder *)

(** [isHidden(filePath)]: the filename starts with a dot. *)
Definition isHidden (filePath : string) : bool :=
  match Path.filename filePath with
  | String c _ => bool_decide (c = "."%char)
  | EmptyString => false
  end.

(** [folderStr.find(fs::canonical(folderPath).generic_string()) == 0] for a
    path that is a symbolic link. *)
Definition symlink_recurses (canonical_of_symlink : option string)
    (folderStr : string) : bool :=
  match canonical_of_symlink with
  | None => false
  | Some canonical => String.prefix canonical folderStr
  end.

(** What [populateFolder] reads from its [SystemData] and the settings. *)
Record ScanContext : Type := {
  searchExtensions : list string;
  showHidden : bool
}.

(** [populateFolder(folder)], [node] being what the file system shows at
    the folder's path. The iteration is a left fold over the directory
    entries; [continue] leaves the folder as it is. *)
Fixpoint populateFolder (ctx : ScanContext) (node : fs_node)
    (folder : FileData) : FileData :=
  match node with
  | fs_file => folder
  | fs_dir link entries =>
      let folderPath := getPath folder in
      if symlink_recurses link folderPath then folder
      else
        fold_left
          (λ folder (entry : string * fs_node),
            let filePath := folderPath // fst entry in
            if empty (Path.stem filePath) then folder
            else
              let extension := Path.extension filePath in
              if bool_decide (extension ∈ searchExtensions ctx) then
                if negb (showHidden ctx) && isHidden filePath then folder
                else addChild folder (FileData_new GAME filePath)
              else
                if is_directory (snd entry) then
                  let newFolder :=
                    populateFolder ctx (snd entry)
                      (FileData_new FOLDER filePath) in
                  if (children_count newFolder =? 0)%nat then folder
                  else addChild folder newFolder
                else folder)
          entries folder
  end.

(** The children one directory entry contributes to the folder at
    [folderPath]. *)
Definition entry_children (ctx : ScanContext) (folderPath : string)
    (entry : string * fs_node) : list FileData :=
  let filePath := folderPath // fst entry in
  if empty (Path.stem filePath) then []
  else if bool_decide (Path.extension filePath ∈ searchExtensions ctx) then
    if negb (showHidden ctx) && isHidden filePath then []
    else [FileData_new GAME filePath]
  else if is_directory (snd entry) then
    let sub := populateFolder ctx (snd entry) (FileData_new FOLDER filePath) in
    match getChildren sub with
    | [] => []
    | _ :: _ => [sub]
    end
  else [].

(** The scan as the claim words it: a GAME child for each entry with a
    non-empty stem and a listed extension, hidden files being skipped unless
    they are shown; each remaining entry that is a directory is scanned and
    added as a FOLDER child when the scan left it with a child; no child
    otherwise. An entry with an empty stem is a remaining entry here. *)
Definition entry_children_as_claimed (ctx : ScanContext) (folderPath : string)
    (entry : string * fs_node) : list FileData :=
  let filePath := folderPath // fst entry in
  if negb (empty (Path.stem filePath))
     && bool_decide (Path.extension filePath ∈ searchExtensions ctx)
  then
    if negb (showHidden ctx) && isHidden filePath then []
    else [FileData_new GAME filePath]
  else if is_directory (snd entry) then
    let sub := populateFolder ctx (snd entry) (FileData_new FOLDER filePath) in
    match getChildren sub with
    | [] => []
    | _ :: _ => [sub]
    end
  else [].

(** ** Path resolution *)

(** [SystemData::getConfigPath(forWrite)] *)
Definition getConfigPath (env : Env) (forWrite : bool) : string :=
  let path := getHomePath env +:+ "/.emulationstation/es_systems.cfg" in
  if forWrite || fs_exists env path then path
  else "/etc/emulationstation/es_systems.cfg".

(** [getGamelistPath(forWrite)], with the directories it creates. *)
Definition getGamelistPath (env : Env) (sys : SystemData) (forWrite : bool)
    : string * list Event :=
  let filePath := getPath (mRootFolder sys) // "gamelist.xml" in
  if fs_exists env filePath then (filePath, [])
  else
    let filePath :=
      getHomePath env +:+ "/.emulationstation/gamelists/" +:+ mName sys
      +:+ "/gamelist.xml" in
    let created :=
      if forWrite then [EvCreateDirectories (Path.parent_path filePath)]
      else [] in
    if forWrite || fs_exists env filePath then (filePath, created)
    else ("/etc/emulationstation/gamelists/" +:+ mName sys +:+ "/gamelist.xml",
          created).

(** [hasGamelist()] *)
Definition hasGamelist (env : Env) (sys : SystemData) : bool :=
  fs_exists env (fst (getGamelistPath env sys false)).

(** [getThemePath()] *)
Definition getThemePath (ext : Externals) (env : Env) (sys : SystemData)
    : string :=
  let localThemePath := getPath (mRootFolder sys) // "theme.xml" in
  if fs_exists env localThemePath then localThemePath
  else
    let localThemePath := getThemeFromCurrentSet ext (mThemeFolder sys) in
    if fs_exists env localThemePath then localThemePath
    else Path.parent_path (Path.parent_path localThemePath) // "theme.xml".

(** [loadTheme()] *)
Definition loadTheme (ext : Externals) (env : Env) (sys : SystemData)
    : SystemData :=
  let path := getThemePath ext env sys in
  let theme : ThemeData :=
    if negb (fs_exists env path) then None
    else if themeLoads ext path then Some path
    else None in
  {| mName := mName sys; mFullName := mFullName sys;
     mEnvData := mEnvData sys; mThemeFolder := mThemeFolder sys;
     mIsCollectionSystem := mIsCollectionSystem sys;
     mIsGameSystem := mIsGameSystem sys;
     mRootFolder := mRootFolder sys; mFilterIndex := mFilterIndex sys;
     mTheme := theme |}.

(** ** Construction and destruction *)

(** The root folder of an actual system and the steps that built it. *)
Definition build_root (ext : Externals) (env : Env) (name fullName : string)
    (envData : SystemEnvironmentData) : FileData * list Event :=
  let root :=
    set_metadata "name" fullName (FileData_new FOLDER (mStartPath envData)) in
  let '(root, ev1) :=
    if negb (getBool env "ParseGamelistOnly") then
      (populateFolder
         {| searchExtensions := mSearchExtensions envData;
            showHidden := getBool env "ShowHiddenFiles" |}
         (node_at env (getPath root)) root,
       [EvPopulateFolder (getPath root)])
    else (root, []) in
  let '(root, ev2) :=
    if negb (getBool env "IgnoreGamelist") then
      (parseGamelist ext name envData root, [EvParseGamelist name])
    else (root, []) in
  (sortFolder ext (SortTypes_at_0 ext) root,
   ev1 ++ ev2 ++ [EvSortRoot (SortTypes_at_0 ext)]).

(** [SystemData::SystemData(name, fullName, envData, themeFolder,
    CollectionSystem)] *)
Definition SystemData_new (ext : Externals) (env : Env)
    (name fullName : string) (envData : SystemEnvironmentData)
    (themeFolder : string) (CollectionSystem : bool)
    : SystemData * list Event :=
  let '(root, events) :=
    if negb CollectionSystem then build_root ext env name fullName envData
    else (FileData_new FOLDER (EmptyString +:+ name), []) in
  (loadTheme ext env
     {| mName := name; mFullName := fullName; mEnvData := envData;
        mThemeFolder := themeFolder;
        mIsCollectionSystem := CollectionSystem;
        (* setIsGameSystemStatus() *)
        mIsGameSystem := negb (bool_decide (name = "retropie"));
        mRootFolder := root;
        mFilterIndex := FileFilterIndex_new;
        mTheme := None |},
   events).

(** [SystemData::~SystemData()] *)
Definition SystemData_delete (env : Env) (sys : SystemData) : list Event :=
  if negb (getBool env "IgnoreGamelist")
     && getBool env "SaveGamelistsOnExit"
     && negb (mIsCollectionSystem sys)
  then [EvUpdateGamelist (mName sys)]
  else [].

(** ** loadConfig *)

(** The static [sSystemVector] and the effects so far. *)
Record State : Type := {
  sSystemVector : list SystemData;
  events : list Event
}.

(** [deleteSystems()] *)
Definition deleteSystems (env : Env) (st : State) : State :=
  {| sSystemVector := [];
     events := events st ++ flat_map (SystemData_delete env) (sSystemVector st) |}.

(** The loop over the platform names of a [<system>]. *)
Fixpoint read_platformIds (ext : Externals) (platformStrs : list string)
    (platformIds : list PlatformId) : list PlatformId :=
  match platformStrs with
  | [] => platformIds
  | str :: rest =>
      match getPlatformId ext str with
      | PLATFORM_IGNORE => [PLATFORM_IGNORE]
      | PLATFORM_UNKNOWN => read_platformIds ext rest platformIds
      | platformId => read_platformIds ext rest (platformIds ++ [platformId])
      end
  end.

(** The expansion of a leading [~] in the start path. *)
Definition expand_home (env : Env) (path : string) : string :=
  match path with
  | String "~" rest => getHomePath env +:+ rest
  | _ => path
  end.

(** One round of the loop over the [<system>] elements. *)
Definition load_system (ext : Externals) (env : Env) (st : State)
    (system : xml_node) : State :=
  let system := Some system in
  let name := text_get (child system "name") in
  let fullname := text_get (child system "fullname") in
  let path := text_get (child system "path") in
  let extensions := readList_vec (text_get (child system "extension")) in
  let cmd := text_get (child system "command") in
  let platformStrs := readList_vec (text_get (child system "platform")) in
  let platformIds := read_platformIds ext platformStrs [] in
  let themeFolder := text_as_string (child system "theme") name in
  if empty name || empty path
     || bool_decide (extensions = []) || empty cmd
  then st
  else
    let path := expand_home env path in
    let envData :=
      {| mStartPath := path; mSearchExtensions := extensions;
         mLaunchCommand := cmd; mPlatformIds := platformIds |} in
    let '(newSys, built) :=
      SystemData_new ext env name fullname envData themeFolder false in
    if (children_count (getRootFolder newSys) =? 0)%nat then
      {| sSystemVector := sSystemVector st;
         events := events st ++ built ++ SystemData_delete env newSys |}
    else
      {| sSystemVector := sSystemVector st ++ [newSys];
         events := events st ++ built |}.

(** [SystemData::loadConfig()] *)
Definition loadConfig (ext : Externals) (env : Env) (st : State)
    : bool * State :=
  let st := deleteSystems env st in
  let path := getConfigPath env false in
  if negb (fs_exists env path) then
    (false,
     {| sSystemVector := sSystemVector st;
        events := events st ++ [EvWriteExampleConfig (getConfigPath env true)] |})
  else
    match xml_files env !! path with
    | None => (false, st)
    | Some doc =>
        match first_named "systemList" doc with
        | None => (false, st)
        | Some systemList =>
            let st :=
              fold_left (load_system ext env)
                (children_named (Some systemList) "system") st in
            (true,
             {| sSystemVector := loadCollectionSystems ext (sSystemVector st);
                events := events st ++ [EvLoadCollectionSystems] |})
        end
    end.

(** ** Counts *)

(** [getGameCount()]: [getFilesRecursive(GAME).size()] as [unsigned int]. *)
Definition getGameCount (sys : SystemData) : Z :=
  wrap32 (Z.of_nat (length
    (getFilesRecursive (mFilterIndex sys) (FileType_code GAME) false
       (mRootFolder sys)))).

(** [getDisplayedGameCount()]: [getFilesRecursive(GAME, true).size()] as
    [unsigned int]. *)
Definition getDisplayedGameCount (sys : SystemData) : Z :=
  wrap32 (Z.of_nat (length
    (getFilesRecursive (mFilterIndex sys) (FileType_code GAME) true
       (mRootFolder sys)))).

(** ** Random selection *)

(** The C library and the floating-point unit: [RAND_MAX], and the rounding
    [fl] that every [double] operation applies to its exact result. *)
Record Platform : Type := {
  RAND_MAX : Z;
  fl : Q → Q
}.

(** What the arithmetic of [double] guarantees: rounding is monotone and
    leaves the integers up to [2^32] unchanged. *)
Record ieee_like (pf : Platform) : Prop := {
  RAND_MAX_pos : 0 < RAND_MAX pf;
  fl_monotone : ∀ x y : Q, (x <= y)%Q → (fl pf x <= fl pf y)%Q;
  fl_integer : ∀ z : Z, 0 <= z <= 2 ^ 32 → (fl pf (inject_Z z) == inject_Z z)%Q
}.

(** Exact arithmetic, the simplest platform. *)
Definition exact_platform (rand_max : Z) : Platform :=
  {| RAND_MAX := rand_max; fl := λ x, x |}.

(** [std::round]: to the nearest integer, halves away from zero. *)
Definition round_half_away (x : Q) : Z :=
  if Qle_bool 0 x then Qfloor (x + (1 # 2)) else Qceiling (x - (1 # 2)).

(** [int target = std::round(((double)r / (double)RAND_MAX) * m)] for the
    value [r] of [std::rand()] and the [unsigned int] [m]. *)
Definition random_target (pf : Platform) (r m : Z) : outcome Z :=
  let scaled :=
    fl pf (fl pf (inject_Z r / inject_Z (RAND_MAX pf)) * inject_Z m)%Q in
  let y := round_half_away scaled in
  if (INT_MIN <=? y) && (y <=? INT_MAX) then Returns y else Undefined.

(** The second loop of [getRandomSystem]; leaving it without a [return]
    falls off the end of the function. *)
Fixpoint pick_system (target : Z) (systems : list SystemData)
    : outcome SystemData :=
  match systems with
  | [] => Undefined
  | s :: rest =>
      if isGameSystem s then
        if 0 <? target then pick_system (target - 1) rest
        else Returns s
      else pick_system target rest
  end.

(** The first loop of [getRandomSystem]: [total++] on an [unsigned int]. *)
Definition count_game_systems (systems : list SystemData) : Z :=
  fold_left (λ total s, if isGameSystem s then wrap32 (total + 1) else total)
    systems 0.

(** [SystemData::getRandomSystem()], [r] being the value of [std::rand()]. *)
Definition getRandomSystem (pf : Platform) (r : Z) (st : State)
    : outcome SystemData :=
  let total := count_game_systems (sSystemVector st) in
  match random_target pf r (wrap32 (total - 1)) with
  | Returns target => pick_system target (sSystemVector st)
  | Throws e => Throws e
  | Undefined => Undefined
  end.

(** [list.at(n)] with [n] converted to [size_t]. *)
Definition vector_at {A} (l : list A) (n : Z) : outcome A :=
  let i := wrap64 n in
  if i <? Z.of_nat (length l) then
    match l !! Z.to_nat i with
    | Some x => Returns x
    | None => Throws "out_of_range"
    end
  else Throws "out_of_range".

(** [getRandomGame()], [r] being the value of [std::rand()]; [None] is
    [NULL]. *)
Definition getRandomGame (pf : Platform) (r : Z) (sys : SystemData)
    : outcome (option FileData) :=
  let list :=
    getFilesRecursive (mFilterIndex sys) (FileType_code GAME) true
      (mRootFolder sys) in
  let total := wrap32 (Z.of_nat (length list)) in
  if total =? 0 then Returns None
  else
    match random_target pf r (wrap32 (total - 1)) with
    | Returns target =>
        match vector_at list target with
        | Returns f => Returns (Some f)
        | Throws e => Throws e
        | Undefined => Undefined
        end
    | Throws e => Throws e
    | Undefined => Undefined
    end.

(** ** Auxiliary definitions for the statements *)

(** [folder] with [more] added after its children. *)
Definition add_children (folder : FileData) (more : list FileData) : FileData :=
  match folder with
  | mkFileData t p m cs => mkFileData t p m (cs ++ more)
  end.

(** The scan as the corrected statement describes it, and as the claim
    words it. *)
Definition scan_result (ctx : ScanContext) (entries : list (string * fs_node))
    (folder : FileData) : FileData :=
  add_children folder (flat_map (entry_children ctx (getPath folder)) entries).

Definition scan_result_as_claimed (ctx : ScanContext)
    (entries : list (string * fs_node)) (folder : FileData) : FileData :=
  add_children folder
    (flat_map (entry_children_as_claimed ctx (getPath folder)) entries).

(** A ROM directory with a game, a text file, a dot directory that holds a
    game, a hidden game and a subdirectory. *)
Definition nes_ctx : ScanContext :=
  {| searchExtensions := [".nes"; ".NES"]; showHidden := false |}.

Definition nes_entries : list (string * fs_node) :=
  [ ("mario.nes", fs_file);
    ("readme.txt", fs_file);
    (".saves", fs_dir None [("zelda.nes", fs_file)]);
    (".tmp.nes", fs_file);
    ("hacks", fs_dir None [("kirby.NES", fs_file); ("empty", fs_dir None [])]);
    ("docs", fs_dir None [("manual.pdf", fs_file)]) ].

Definition nes_root : FileData := FileData_new FOLDER "/roms/nes".

(** A directory whose only entry is a dot directory that holds a game. *)
Definition dot_dir_entries : list (string * fs_node) :=
  [ (".saves", fs_dir None [("zelda.nes", fs_file)]) ].

(** A system of the catalogue and a small environment, for the examples. *)
Definition nes_env_data : SystemEnvironmentData :=
  {| mStartPath := "/roms/nes"; mSearchExtensions := [".nes"; ".NES"];
     mLaunchCommand := "retroarch %ROM%"; mPlatformIds := [PLATFORM 7] |}.

Definition nes_system (root : FileData) : SystemData :=
  {| mName := "nes"; mFullName := "Nintendo Entertainment System";
     mEnvData := nes_env_data; mThemeFolder := "nes";
     mIsCollectionSystem := false; mIsGameSystem := true;
     mRootFolder := root; mFilterIndex := FileFilterIndex_new;
     mTheme := None |}.

(** A system without a theme of its own in the theme set. *)
Definition gb_system : SystemData :=
  {| mName := "gb"; mFullName := "Game Boy"; mEnvData := nes_env_data;
     mThemeFolder := "gb"; mIsCollectionSystem := false;
     mIsGameSystem := true; mRootFolder := FileData_new FOLDER "/roms/gb";
     mFilterIndex := FileFilterIndex_new; mTheme := None |}.

Definition plain_externals : Externals :=
  {| parseGamelist := λ _ _ root, root;
     sortFolder := λ _ root, root;
     SortTypes_at_0 := mkSortType "filename, ascending";
     getPlatformId := λ s, if bool_decide (s = "nes") then PLATFORM 7
                           else PLATFORM_UNKNOWN;
     getThemeFromCurrentSet :=
       λ system, "/home/pi/.emulationstation/themes/carbon/" +:+ system
                 +:+ "/theme.xml";
     themeLoads := λ _, true;
     loadCollectionSystems := λ systems, systems |}.

Definition nes_config : list xml_node :=
  [ xml_element "systemList" None
      [ xml_element "system" None
          [ xml_element "name" (Some "nes") [];
            xml_element "fullname" (Some "Nintendo Entertainment System") [];
            xml_element "path" (Some "~/roms/nes") [];
            xml_element "extension" (Some ".nes .NES") [];
            xml_element "command" (Some "retroarch %ROM%") [];
            xml_element "platform" (Some "nes") [] ];
        xml_element "system" None
          [ xml_element "name" (Some "snes") [];
            xml_element "path" (Some "~/roms/snes") [];
            xml_element "extension" (Some ".smc") [];
            xml_element "command" (Some "retroarch %ROM%") [] ];
        xml_element "system" None
          [ xml_element "name" (Some "broken") [] ] ] ].

Definition pi_env : Env :=
  {| getHomePath := "/home/pi";
     settings := {[ "ShowHiddenFiles" := false ]};
     existing := {[ "/home/pi/.emulationstation/es_systems.cfg";
                    "/home/pi/.emulationstation/themes/carbon/nes/theme.xml" ]};
     scan := {[ "/home/pi/roms/nes" := fs_dir None nes_entries;
                "/home/pi/roms/snes" := fs_dir None [("readme.txt", fs_file)] ]};
     xml_files := {[ "/home/pi/.emulationstation/es_systems.cfg" := nes_config ]} |}.

Definition empty_state : State := {| sSystemVector := []; events := [] |}.

(** The three places a gamelist is looked for. *)
Definition root_gamelist (sys : SystemData) : string :=
  getPath (mRootFolder sys) // "gamelist.xml".
Definition home_gamelist (env : Env) (sys : SystemData) : string :=
  getHomePath env +:+ "/.emulationstation/gamelists/" +:+ mName sys
  +:+ "/gamelist.xml".
Definition etc_gamelist (sys : SystemData) : string :=
  "/etc/emulationstation/gamelists/" +:+ mName sys +:+ "/gamelist.xml".

(** The three places a theme is looked for. *)
Definition root_theme (sys : SystemData) : string :=
  getPath (mRootFolder sys) // "theme.xml".
Definition set_theme (ext : Externals) (sys : SystemData) : string :=
  getThemeFromCurrentSet ext (mThemeFolder sys).
Definition default_theme (ext : Externals) (sys : SystemData) : string :=
  Path.parent_path (Path.parent_path (set_theme ext sys)) // "theme.xml".

(** The root folder of an actual system before the scan, after the scan and
    after the gamelist merge, as the settings decide. *)
Definition fresh_root (fullName : string) (envData : SystemEnvironmentData)
    : FileData :=
  set_metadata "name" fullName (FileData_new FOLDER (mStartPath envData)).

Definition scanned_root (env : Env) (fullName : string)
    (envData : SystemEnvironmentData) : FileData :=
  if getBool env "ParseGamelistOnly" then fresh_root fullName envData
  else populateFolder
         {| searchExtensions := mSearchExtensions envData;
            showHidden := getBool env "ShowHiddenFiles" |}
         (node_at env (mStartPath envData)) (fresh_root fullName envData).

Definition merged_root (ext : Externals) (env : Env) (name fullName : string)
    (envData : SystemEnvironmentData) : FileData :=
  if getBool env "IgnoreGamelist" then scanned_root env fullName envData
  else parseGamelist ext name envData (scanned_root env fullName envData).

(** The recursive game lists of a system: all games, and the displayed
    ones. *)
Definition all_games (sys : SystemData) : list FileData :=
  getFilesRecursive (mFilterIndex sys) (FileType_code GAME) false
    (mRootFolder sys).

Definition displayed_games (sys : SystemData) : list FileData :=
  getFilesRecursive (mFilterIndex sys) (FileType_code GAME) true
    (mRootFolder sys).

(** A system with three games under a filter that shows one of them. *)
Definition filtered_system : SystemData :=
  {| mName := "nes"; mFullName := "Nintendo Entertainment System";
     mEnvData := nes_env_data; mThemeFolder := "nes";
     mIsCollectionSystem := false; mIsGameSystem := true;
     mRootFolder :=
       mkFileData FOLDER "/roms/nes" []
         [ FileData_new GAME "/roms/nes/mario.nes";
           mkFileData FOLDER "/roms/nes/hacks" []
             [ FileData_new GAME "/roms/nes/hacks/kirby.NES";
               FileData_new GAME "/roms/nes/hacks/metroid.nes" ] ];
     mFilterIndex :=
       {| isFiltered := true;
          showFile := λ f, bool_decide (getPath f = "/roms/nes/hacks/kirby.NES") |};
     mTheme := None |}.

(** The same system with no filter set. *)
Definition unfiltered_system : SystemData :=
  {| mName := "nes"; mFullName := "Nintendo Entertainment System";
     mEnvData := nes_env_data; mThemeFolder := "nes";
     mIsCollectionSystem := false; mIsGameSystem := true;
     mRootFolder := mRootFolder filtered_system;
     mFilterIndex := FileFilterIndex_new;
     mTheme := None |}.

(** The non-game system of the catalogue. *)
Definition retropie_system : SystemData :=
  {| mName := "retropie"; mFullName := "RetroPie";
     mEnvData := nes_env_data; mThemeFolder := "retropie";
     mIsCollectionSystem := false; mIsGameSystem := false;
     mRootFolder := mRootFolder filtered_system;
     mFilterIndex := FileFilterIndex_new;
     mTheme := None |}.

(** The systems of a vector for which [isGameSystem()] holds, in order. *)
Fixpoint game_systems (systems : list SystemData) : list SystemData :=
  match systems with
  | [] => []
  | s :: rest =>
      if isGameSystem s then s :: game_systems rest else game_systems rest
  end.

(** ** The configuration as loadConfig sees it *)

(** The three cases in which [loadConfig] gives up. *)
Definition config_missing (env : Env) : bool :=
  negb (fs_exists env (getConfigPath env false)).

Definition config_unparsable (env : Env) : bool :=
  fs_exists env (getConfigPath env false)
  && match xml_files env !! getConfigPath env false with
     | None => true
     | Some _ => false
     end.

Definition config_lacks_systemList (env : Env) : bool :=
  fs_exists env (getConfigPath env false)
  && match xml_files env !! getConfigPath env false with
     | None => false
     | Some doc =>
         match first_named "systemList" doc with
         | None => true
         | Some _ => false
         end
     end.

(** The [<system>] elements of the configuration, when it can be loaded. *)
Definition system_nodes (env : Env) : list xml_node :=
  if fs_exists env (getConfigPath env false) then
    match xml_files env !! getConfigPath env false with
    | None => []
    | Some doc => children_named (first_named "systemList" doc) "system"
    end
  else [].

(** The validation of a [<system>] element: name, path, extension list and
    command are all present. *)
Definition entry_valid (system : xml_node) : bool :=
  negb (empty (text_get (child (Some system) "name"))
        || empty (text_get (child (Some system) "path"))
        || bool_decide
             (readList_vec (text_get (child (Some system) "extension")) = [])
        || empty (text_get (child (Some system) "command"))).

(** The system constructed from a [<system>] element. *)
Definition entry_system (ext : Externals) (env : Env) (system : xml_node)
    : SystemData :=
  let name := text_get (child (Some system) "name") in
  fst (SystemData_new ext env name
         (text_get (child (Some system) "fullname"))
         {| mStartPath :=
              expand_home env (text_get (child (Some system) "path"));
            mSearchExtensions :=
              readList_vec (text_get (child (Some system) "extension"));
            mLaunchCommand := text_get (child (Some system) "command");
            mPlatformIds :=
              read_platformIds ext
                (readList_vec (text_get (child (Some system) "platform"))) [] |}
         (text_as_string (child (Some system) "theme") name) false).

(** What a [<system>] element adds to [sSystemVector]: its system when the
    element is valid and the root folder has a child, nothing otherwise. *)
Definition entry_registers (ext : Externals) (env : Env) (system : xml_node)
    : list SystemData :=
  if entry_valid system
     && negb (children_count (getRootFolder (entry_system ext env system)) =? 0)%nat
  then [entry_system ext env system]
  else [].

(** The systems [loadConfig] registers from the configuration. *)
Definition configured_systems (ext : Externals) (env : Env)
    : list SystemData :=
  flat_map (entry_registers ext env) (system_nodes env).


(** What the invariant relies on from the gamelist merge (Gamelist.cpp) and
    from sorting (FileData.cpp), whose code is elsewhere: a gamelist only
    adds files below the start path, so a root folder that has no child and
    an empty path gets none from the merge; and sorting adds no child. *)
Record roots_within_start_path (ext : Externals) : Prop := {
  parseGamelist_empty_path :
    ∀ name envData root,
      getPath root = EmptyString → getChildren root = [] →
      getChildren (parseGamelist ext name envData root) = [];
  sortFolder_adds_no_child :
    ∀ type root,
      getChildren root = [] → getChildren (sortFolder ext type root) = []
}.

(** A configuration read without a home directory: the start path of its
    system is the home directory itself. *)
Definition homeless_env : Env :=
  {| getHomePath := ""; settings := ∅;
     existing := {[ "/etc/emulationstation/es_systems.cfg" ]};
     scan := {[ "" := fs_dir None nes_entries ]};
     xml_files :=
       {[ "/etc/emulationstation/es_systems.cfg" :=
            [ xml_element "systemList" None
                [ xml_element "system" None
                    [ xml_element "name" (Some "nes") [];
                      xml_element "path" (Some "~") [];
                      xml_element "extension" (Some ".nes") [];
                      xml_element "command" (Some "retroarch %ROM%") [] ] ] ] ]} |}.

(** A collection manager that registers the collection of favourites, built
    by the constructor for collection systems. *)
Definition collection_env_data : SystemEnvironmentData :=
  {| mStartPath := ""; mSearchExtensions := []; mLaunchCommand := "";
     mPlatformIds := [] |}.

Definition favorites_system : SystemData :=
  fst (SystemData_new plain_externals pi_env "favorites" "favorites"
         collection_env_data "auto-favorites" true).

Definition collection_externals : Externals :=
  {| parseGamelist := parseGamelist plain_externals;
     sortFolder := sortFolder plain_externals;
     SortTypes_at_0 := SortTypes_at_0 plain_externals;
     getPlatformId := getPlatformId plain_externals;
     getThemeFromCurrentSet := getThemeFromCurrentSet plain_externals;
     themeLoads := themeLoads plain_externals;
     loadCollectionSystems := λ systems, systems ++ [favorites_system] |}.

(** Environments without a configuration, with one that is not well-formed
    and with one that has no [<systemList>]. *)
Definition no_config_env : Env :=
  {| getHomePath := "/home/pi"; settings := ∅; existing := ∅; scan := ∅;
     xml_files := ∅ |}.

Definition bad_xml_env : Env :=
  {| getHomePath := "/home/pi"; settings := ∅;
     existing := {[ "/etc/emulationstation/es_systems.cfg" ]}; scan := ∅;
     xml_files := ∅ |}.

Definition no_list_env : Env :=
  {| getHomePath := "/home/pi"; settings := ∅;
     existing := {[ "/etc/emulationstation/es_systems.cfg" ]}; scan := ∅;
     xml_files :=
       {[ "/etc/emulationstation/es_systems.cfg" :=
            [xml_element "systems" None []] ]} |}.

(** ** Further notions for the statements *)

(** All the files below a folder, in tree order. *)
Fixpoint descendants (f : FileData) : list FileData :=
  match f with
  | mkFileData _ _ _ children => flat_map (λ c, c :: descendants c) children
  end.

(** The shape of a file that a scan adds below the folder at [parent]: a
    game is a leaf named after a directory entry with a non-empty stem and
    a listed extension, hidden only if hidden files are shown; a folder is
    named after an entry with a non-empty stem and no listed extension, and
    holds at least one file of the same shape. *)
Inductive Scanned (ctx : ScanContext) : string → FileData → Prop :=
  | Scanned_game parent name :
      empty (Path.stem (parent // name)) = false →
      Path.extension (parent // name) ∈ searchExtensions ctx →
      (showHidden ctx = false → isHidden (parent // name) = false) →
      Scanned ctx parent (mkFileData GAME (parent // name) [] [])
  | Scanned_folder parent name c cs :
      empty (Path.stem (parent // name)) = false →
      Path.extension (parent // name) ∉ searchExtensions ctx →
      Forall (Scanned ctx (parent // name)) (c :: cs) →
      Scanned ctx parent (mkFileData FOLDER (parent // name) [] (c :: cs)).

(** What holds of every file of a scanned tree, whatever its parent. *)
Definition scanned_file (ctx : ScanContext) (f : FileData) : Prop :=
  getMetadata f = []
  ∧ empty (Path.stem (getPath f)) = false
  ∧ match getType f with
    | GAME =>
        getChildren f = []
        ∧ Path.extension (getPath f) ∈ searchExtensions ctx
        ∧ (showHidden ctx = false → isHidden (getPath f) = false)
    | FOLDER =>
        getChildren f ≠ []
        ∧ Path.extension (getPath f) ∉ searchExtensions ctx
    end.

(** The tokens [ts] written one after the other with [c] between them. *)
Fixpoint join_with (c : ascii) (ts : list (list ascii)) : list ascii :=
  match ts with
  | [] => []
  | [t] => t
  | t :: rest => t ++ c :: join_with c rest
  end.

Definition is_ignore (p : PlatformId) : bool :=
  match p with PLATFORM_IGNORE => true | _ => false end.

Definition is_known (p : PlatformId) : bool :=
  match p with PLATFORM _ => true | _ => false end.

(** Whether the destructor of a system saves its gamelist. *)
Definition saves_gamelists (env : Env) : bool :=
  negb (getBool env "IgnoreGamelist") && getBool env "SaveGamelistsOnExit".

Definition is_write_example (e : Event) : bool :=
  match e with EvWriteExampleConfig _ => true | _ => false end.

(** The configuration files [getConfigPath] knows. *)
Definition home_config (env : Env) : string :=
  getHomePath env +:+ "/.emulationstation/es_systems.cfg".
Definition etc_config : string := "/etc/emulationstation/es_systems.cfg".

(** A [<system>] element whose extension list holds delimiters only. *)
Definition blank_extension_node : xml_node :=
  xml_element "system" None
    [ xml_element "name" (Some "nes") [];
      xml_element "path" (Some "~/roms/nes") [];
      xml_element "extension" (Some " , ") [];
      xml_element "command" (Some "retroarch %ROM%") [] ].
(** * Proofs *)

(** ** readList *)

Section ReadListProofs.

Import StdString.

Variable delims : list ascii.

Lemma run_length_le p l : (run_length p l ≤ length l)%nat.
Proof. induction l as [|c l IH]; simpl; [lia|]. destruct (p c); simpl; lia. Qed.

Lemma run_length_take p l : Forall (λ c, p c = true) (take (run_length p l) l).
Proof.
  induction l as [|c l IH]; simpl; [constructor|].
  destruct (p c) eqn:E; simpl; [|constructor].
  constructor; assumption.
Qed.

Lemma run_length_drop p l :
  match drop (run_length p l) l with
  | [] => True
  | c :: _ => p c = false
  end.
Proof.
  induction l as [|c l IH]; simpl; [exact I|].
  destruct (p c) eqn:E; simpl; assumption.
Qed.

Lemma run_length_all p l :
  run_length p l = length l → Forall (λ c, p c = true) l.
Proof.
  intros H. rewrite <- (firstn_all l), <- H. apply run_length_take.
Qed.

Lemma run_length_pos p c l : p c = true → (1 ≤ run_length p (c :: l))%nat.
Proof. intros H. simpl. rewrite H. lia. Qed.

Lemma find_if_run p l i :
  find_if p l i =
    if decide (run_length (λ c, negb (p c)) l = length l) then npos
    else i + Z.of_nat (run_length (λ c, negb (p c)) l).
Proof.
  revert i. induction l as [|c l IH]; intros i; simpl.
  - reflexivity.
  - destruct (p c); simpl.
    + destruct (decide (O = S (length l))); [lia|]. lia.
    + rewrite IH.
      destruct (decide (run_length (λ c, negb (p c)) l = length l));
        destruct (decide (S (run_length (λ c, negb (p c)) l) = S (length l)));
        try lia.
Qed.

Lemma size_nat (str : list ascii) : size str = Z.of_nat (length str).
Proof. reflexivity. Qed.

Lemma find_first_not_of_run str (q : nat) :
  (q ≤ length str)%nat →
  find_first_not_of str delims (Z.of_nat q) =
    if decide (run_length (is_delim delims) (drop q str) = (length str - q)%nat)
    then npos
    else Z.of_nat q + Z.of_nat (run_length (is_delim delims) (drop q str)).
Proof.
  intros Hq. unfold find_first_not_of. rewrite size_nat.
  destruct (Z.leb_spec (Z.of_nat (length str)) (Z.of_nat q)) as [Hle|Hlt].
  - assert (q = length str) by lia. subst q.
    rewrite drop_all. simpl. rewrite Nat.sub_diag.
    destruct (decide (O = O)); [reflexivity|lia].
  - rewrite Nat2Z.id, find_if_run, length_drop.
    assert (E : ∀ l, run_length (λ c, negb (negb (is_delim delims c))) l
                     = run_length (is_delim delims) l).
    { induction l as [|c l IH]; simpl; [reflexivity|].
      rewrite negb_involutive, IH. reflexivity. }
    rewrite E. reflexivity.
Qed.

Lemma find_first_of_run str (q : nat) :
  (q ≤ length str)%nat →
  find_first_of str delims (Z.of_nat q) =
    if decide (run_length (λ c, negb (is_delim delims c)) (drop q str)
               = (length str - q)%nat)
    then npos
    else Z.of_nat q
         + Z.of_nat (run_length (λ c, negb (is_delim delims c)) (drop q str)).
Proof.
  intros Hq. unfold find_first_of. rewrite size_nat.
  destruct (Z.leb_spec (Z.of_nat (length str)) (Z.of_nat q)) as [Hle|Hlt].
  - assert (q = length str) by lia. subst q.
    rewrite drop_all. simpl. rewrite Nat.sub_diag.
    destruct (decide (O = O)); [reflexivity|lia].
  - rewrite Nat2Z.id, find_if_run, length_drop. reflexivity.
Qed.

Lemma find_first_of_npos str :
  size str < npos → find_first_of str delims npos = npos.
Proof.
  intros H. unfold find_first_of.
  destruct (Z.leb_spec (size str) npos); [reflexivity|lia].
Qed.

Lemma find_first_not_of_npos str :
  size str < npos → find_first_not_of str delims npos = npos.
Proof.
  intros H. unfold find_first_not_of.
  destruct (Z.leb_spec (size str) npos); [reflexivity|lia].
Qed.

Lemma is_delim_true c : is_delim delims c = true ↔ c ∈ delims.
Proof. unfold is_delim. apply bool_decide_eq_true. Qed.

Lemma is_delim_false c : negb (is_delim delims c) = true ↔ c ∉ delims.
Proof.
  unfold is_delim. rewrite negb_true_iff. apply bool_decide_eq_false.
Qed.

Lemma readList_loop_exit fuel str ret :
  readList_loop fuel str delims npos npos ret = Some (Returns ret).
Proof. destruct fuel; reflexivity. Qed.

Lemma readList_loop_step fuel str prevOff off ret :
  prevOff ≠ npos →
  readList_loop (S fuel) str delims prevOff off ret =
    match substr str prevOff (wrap64 (off - prevOff)) with
    | Throws e => Some (Throws e)
    | Undefined => Some Undefined
    | Returns tok =>
        readList_loop fuel str delims
          (find_first_not_of str delims off)
          (find_first_of str delims (find_first_not_of str delims off))
          (ret ++ [tok])
    end.
Proof.
  intros H. simpl.
  destruct (Z.eqb_spec prevOff npos) as [E|_]; [contradiction|].
  rewrite orb_true_r. reflexivity.
Qed.

Lemma npos_value : npos = 18446744073709551615.
Proof. reflexivity. Qed.

(** One round of the loop, started at the first character [p] of a token:
    the token pushed is the run of non-delimiters at [p], and the search
    resumes right after it. *)
Lemma readList_token str (p : nat) :
  size str < npos →
  (p < length str)%nat →
  let k := run_length (λ c, negb (is_delim delims c)) (drop p str) in
  let off := find_first_of str delims (Z.of_nat p) in
  substr str (Z.of_nat p) (wrap64 (off - Z.of_nat p))
    = Returns (take k (drop p str))
  ∧ find_first_not_of str delims off
    = find_first_not_of str delims (Z.of_nat (p + k)).
Proof.
  intros Hsz Hp k off. unfold size in Hsz. rewrite npos_value in Hsz.
  assert (Hk : (k ≤ length str - p)%nat).
  { unfold k. etrans; [apply run_length_le|]. rewrite length_drop. lia. }
  assert (Hoff : off = if decide (k = (length str - p)%nat) then npos
                       else Z.of_nat p + Z.of_nat k).
  { unfold off, k. apply find_first_of_run. lia. }
  split.
  - unfold substr, size.
    destruct (Z.ltb_spec (Z.of_nat (length str)) (Z.of_nat p)); [lia|].
    f_equal. f_equal; [|by rewrite Nat2Z.id].
    rewrite Hoff. unfold wrap64.
    destruct (decide (k = (length str - p)%nat)) as [E|NE].
    + rewrite npos_value, Z.mod_small by lia. lia.
    + replace (Z.of_nat p + Z.of_nat k - Z.of_nat p) with (Z.of_nat k) by lia.
      rewrite Z.mod_small by lia. lia.
  - rewrite Hoff.
    destruct (decide (k = (length str - p)%nat)) as [E|NE].
    + rewrite find_first_not_of_npos by (unfold size; rewrite npos_value; lia).
      replace (p + k)%nat with (length str) by lia.
      rewrite find_first_not_of_run by lia.
      rewrite drop_all. simpl. rewrite Nat.sub_diag.
      destruct (decide (O = O)); [reflexivity|lia].
    + f_equal. lia.
Qed.

Lemma readList_loop_tokens str :
  size str < npos →
  ∀ fuel (q : nat) ret,
    (q ≤ length str)%nat →
    (length str - q ≤ fuel)%nat →
    ∃ ts,
      readList_loop fuel str delims
        (find_first_not_of str delims (Z.of_nat q))
        (find_first_of str delims (find_first_not_of str delims (Z.of_nat q)))
        ret
      = Some (Returns (ret ++ ts))
      ∧ Tokens delims (drop q str) ts.
Proof.
  intros Hsz fuel. induction fuel as [|fuel IH]; intros q ret Hq Hfuel.
  all: rewrite find_first_not_of_run by lia.
  all: set (j := run_length (is_delim delims) (drop q str)).
  all: assert (Hj : (j ≤ length str - q)%nat)
         by (unfold j; etrans; [apply run_length_le|]; rewrite length_drop; lia).
  all: destruct (decide (j = (length str - q)%nat)) as [E|NE]; [|try lia].
  1,2: exists []; rewrite find_first_of_npos, readList_loop_exit, app_nil_r
         by assumption;
       split; [reflexivity|]; constructor;
       eapply Forall_impl;
       [apply run_length_all; unfold j in E; rewrite E, length_drop; reflexivity
       |intros c Hc; by apply is_delim_true].
  (* a token starts at [p = q + j] *)
  set (p := (q + j)%nat).
  assert (Hp : (p < length str)%nat) by (unfold p; lia).
  replace (Z.of_nat q + Z.of_nat j) with (Z.of_nat p) by (unfold p; lia).
  set (k := run_length (λ c, negb (is_delim delims c)) (drop p str)).
  destruct (readList_token str p Hsz Hp) as [Hsub Hnext].
  fold k in Hsub, Hnext.
  rewrite readList_loop_step, Hsub, Hnext
    by (unfold size in Hsz; rewrite npos_value in *; lia).
  assert (Hdrop : drop j (drop q str) = drop p str)
    by (rewrite drop_drop; reflexivity).
  assert (Hk1 : (1 ≤ k)%nat).
  { pose proof (run_length_drop (is_delim delims) (drop q str)) as Hd.
    fold j in Hd. rewrite Hdrop in Hd. unfold k.
    destruct (drop p str) as [|c l] eqn:El.
    - apply (f_equal length) in El. rewrite length_drop in El. simpl in El. lia.
    - apply run_length_pos. rewrite Hd. reflexivity. }
  assert (Hk : (k ≤ length str - p)%nat).
  { unfold k. etrans; [apply run_length_le|]. rewrite length_drop. lia. }
  destruct (IH (p + k)%nat (ret ++ [take k (drop p str)])) as (ts & Hrun & Htok);
    [lia|lia|].
  exists (take k (drop p str) :: ts). split.
  - rewrite Hrun, <- app_assoc. reflexivity.
  - assert (Hsplit : drop q str
                     = take j (drop q str)
                       ++ take k (drop p str) ++ drop (p + k) str).
    { rewrite <- (drop_drop str k p), take_drop, <- Hdrop, take_drop.
      reflexivity. }
    rewrite Hsplit.
    constructor; [| | | |exact Htok].
    + eapply Forall_impl; [apply run_length_take|].
      intros c Hc. by apply is_delim_true.
    + intros Hnil. apply (f_equal length) in Hnil.
      rewrite length_take, length_drop in Hnil. simpl in Hnil. lia.
    + eapply Forall_impl; [apply run_length_take|].
      intros c Hc. by apply is_delim_false.
    + pose proof (run_length_drop (λ c, negb (is_delim delims c)) (drop p str))
        as Hd.
      fold k in Hd. rewrite drop_drop in Hd.
      destruct (drop (p + k) str) as [|c l]; simpl; [exact I|].
      apply is_delim_true. by rewrite negb_false_iff in Hd.
Qed.

Lemma readList_chars_tokens str :
  size str < npos →
  ∃ ts, readList_chars str delims = Some (Returns ts) ∧ Tokens delims str ts.
Proof.
  intros Hsz. unfold readList_chars.
  destruct (readList_loop_tokens str Hsz (S (length str)) O [])
    as (ts & Hrun & Htok); [lia|lia|].
  exists ts. split; [exact Hrun|exact Htok].
Qed.

Lemma Tokens_elements s ts :
  Tokens delims s ts →
  Forall (λ t, t ≠ [] ∧ Forall (λ c, c ∉ delims) t) ts.
Proof.
  induction 1 as [|ds tok rest ts Hds Hne Htok Hb Hrest IH]; constructor.
  - split; assumption.
  - exact IH.
Qed.

(** A run of elements with a property, cut where the property first fails,
    is determined by the whole list. *)
Lemma run_unique (P : ascii → Prop) (a1 a2 b1 b2 : list ascii) :
  Forall P a1 → Forall P a2 →
  match b1 with [] => True | c :: _ => ¬ P c end →
  match b2 with [] => True | c :: _ => ¬ P c end →
  a1 ++ b1 = a2 ++ b2 →
  a1 = a2 ∧ b1 = b2.
Proof.
  intros H1. revert a2. induction H1 as [|x a1 Hx H1 IH]; intros a2 H2 Hb1 Hb2 E.
  - destruct H2 as [|y a2 Hy H2]; simpl in E.
    + split; [reflexivity|exact E].
    + subst b1. contradiction.
  - destruct H2 as [|y a2 Hy H2]; simpl in E.
    + subst b2. contradiction.
    + injection E as -> E. destruct (IH a2 H2 Hb1 Hb2 E) as [-> ->].
      split; reflexivity.
Qed.

Lemma Tokens_functional s ts1 ts2 :
  Tokens delims s ts1 → Tokens delims s ts2 → ts1 = ts2.
Proof.
  intros H1. revert ts2.
  induction H1 as [ds Hds|ds tok rest ts Hds Hne Htok Hb Hrest IH];
    intros ts2 H2.
  - inversion H2 as [|ds' tok' rest' ts' Hds' Hne' Htok' Hb' Hrest' E]; subst;
      [reflexivity|].
    apply Forall_app in Hds as [_ Hds]. apply Forall_app in Hds as [Hds _].
    destruct tok' as [|c tok']; [contradiction|].
    apply Forall_cons in Hds as [Hc _]. apply Forall_cons in Htok' as [Hc' _].
    contradiction.
  - inversion H2 as [ds' Hds' E|ds' tok' rest' ts' Hds' Hne' Htok' Hb' Hrest' E];
      subst.
    + apply Forall_app in Hds' as [_ Hds']. apply Forall_app in Hds' as [Hds' _].
      destruct tok as [|c tok]; [contradiction|].
      apply Forall_cons in Hds' as [Hc _]. apply Forall_cons in Htok as [Hc' _].
      contradiction.
    + assert (E1 : ds' = ds ∧ tok' ++ rest' = tok ++ rest).
      { apply (run_unique (λ c, c ∈ delims)); try assumption.
        - destruct tok' as [|c tok']; [contradiction|]. simpl.
          apply Forall_cons in Htok' as [Hc _]. exact Hc.
        - destruct tok as [|c tok]; [contradiction|]. simpl.
          apply Forall_cons in Htok as [Hc _]. exact Hc. }
      destruct E1 as [-> E1].
      assert (E2 : tok' = tok ∧ rest' = rest).
      { apply (run_unique (λ c, c ∉ delims)); try assumption.
        - destruct rest' as [|c r]; [exact I|]. simpl in *. tauto.
        - destruct rest as [|c r]; [exact I|]. simpl in *. tauto. }
      destruct E2 as [-> ->]. f_equal. apply IH. assumption.
Qed.

End ReadListProofs.

Lemma list_ascii_nonempty (t : list ascii) :
  t ≠ [] → string_of_list_ascii t ≠ EmptyString.
Proof. destruct t; [contradiction|discriminate]. Qed.

(** C10. For every input string (shorter than [npos], as every
    [std::string] is) and every delimiter set, [readList] returns; the
    vector returned holds exactly the maximal delimiter-free substrings of
    the input, left to right ([Tokens], which determines them); each
    element is non-empty and contains no delimiter; and a string made of
    delimiters only, the empty one included, gives the empty vector. *)
Theorem readList_maximal_tokens (str : string) (delims : list ascii) :
  StdString.size (list_ascii_of_string str) < npos →
  ∃ ts : list (list ascii),
    readList str delims = Some (Returns (map string_of_list_ascii ts))
    ∧ Tokens delims (list_ascii_of_string str) ts
    ∧ (∀ ts', Tokens delims (list_ascii_of_string str) ts' → ts' = ts)
    ∧ Forall (λ t, t ≠ [] ∧ Forall (λ c, c ∉ delims) t) ts
    ∧ Forall (λ s, s ≠ EmptyString) (map string_of_list_ascii ts)
    ∧ (Forall (λ c, c ∈ delims) (list_ascii_of_string str) → ts = []).
Proof.
  intros Hsz.
  destruct (readList_chars_tokens delims _ Hsz) as (ts & Hrun & Htok).
  exists ts. unfold readList. rewrite Hrun.
  pose proof (Tokens_elements delims _ _ Htok) as Hel.
  repeat split; try assumption.
  - intros ts' H'. exact (Tokens_functional delims _ _ _ H' Htok).
  - apply Forall_fmap. eapply Forall_impl; [exact Hel|].
    intros t [Hne _]. simpl. by apply list_ascii_nonempty.
  - intros Hall. apply (Tokens_functional delims _ _ _ Htok).
    constructor. exact Hall.
Qed.

Lemma readList_maximal_tokens_witness :
  ∃ ts : list (list ascii),
    readList ", .nes .NES,,.zip " default_delims
      = Some (Returns (map string_of_list_ascii ts))
    ∧ Tokens default_delims (list_ascii_of_string ", .nes .NES,,.zip ") ts
    ∧ (∀ ts', Tokens default_delims
                (list_ascii_of_string ", .nes .NES,,.zip ") ts' → ts' = ts)
    ∧ Forall (λ t, t ≠ [] ∧ Forall (λ c, c ∉ default_delims) t) ts
    ∧ Forall (λ s, s ≠ EmptyString) (map string_of_list_ascii ts)
    ∧ (Forall (λ c, c ∈ default_delims)
         (list_ascii_of_string ", .nes .NES,,.zip ") → ts = []).
Proof.
  apply (readList_maximal_tokens ", .nes .NES,,.zip " default_delims).
  vm_compute. reflexivity.
Defined.

Example readList_example :
  readList ", .nes .NES,,.zip " default_delims
  = Some (Returns [".nes"; ".NES"; ".zip"]).
Proof. vm_compute. reflexivity. Qed.

Example readList_only_delims :
  readList " ,	" default_delims = Some (Returns []).
Proof. vm_compute. reflexivity. Qed.

(** ** populateFolder *)

Section PopulateFolder.

Variable ctx : ScanContext.

Lemma add_children_nil folder : add_children folder [] = folder.
Proof. destruct folder. simpl. by rewrite app_nil_r. Qed.

Lemma add_children_app folder l1 l2 :
  add_children (add_children folder l1) l2 = add_children folder (l1 ++ l2).
Proof. destruct folder. simpl. by rewrite <- app_assoc. Qed.

Lemma addChild_add_children folder c :
  addChild folder c = add_children folder [c].
Proof. destruct folder. reflexivity. Qed.

Lemma getPath_add_children folder l :
  getPath (add_children folder l) = getPath folder.
Proof. destruct folder. reflexivity. Qed.

(** The body of the loop adds the children of the entry. *)
Lemma populateFolder_entry folderPath folder entry :
  (let filePath := folderPath // fst entry in
   if empty (Path.stem filePath) then folder
   else
     let extension := Path.extension filePath in
     if bool_decide (extension ∈ searchExtensions ctx) then
       if negb (showHidden ctx) && isHidden filePath then folder
       else addChild folder (FileData_new GAME filePath)
     else
       if is_directory (snd entry) then
         let newFolder :=
           populateFolder ctx (snd entry) (FileData_new FOLDER filePath) in
         if (children_count newFolder =? 0)%nat then folder
         else addChild folder newFolder
       else folder)
  = add_children folder (entry_children ctx folderPath entry).
Proof.
  unfold entry_children. cbv zeta.
  destruct (empty (Path.stem (folderPath // fst entry)));
    [by rewrite add_children_nil|].
  destruct (bool_decide
              (Path.extension (folderPath // fst entry) ∈ searchExtensions ctx)).
  - destruct (negb (showHidden ctx) && isHidden (folderPath // fst entry));
      [by rewrite add_children_nil|apply addChild_add_children].
  - destruct (is_directory (snd entry)); [|by rewrite add_children_nil].
    unfold children_count.
    destruct (getChildren (populateFolder ctx (snd entry)
                (FileData_new FOLDER (folderPath // fst entry)))); simpl.
    + by rewrite add_children_nil.
    + apply addChild_add_children.
Qed.

Lemma populateFolder_fold folderPath entries folder :
  fold_left
    (λ folder (entry : string * fs_node),
      let filePath := folderPath // fst entry in
      if empty (Path.stem filePath) then folder
      else
        let extension := Path.extension filePath in
        if bool_decide (extension ∈ searchExtensions ctx) then
          if negb (showHidden ctx) && isHidden filePath then folder
          else addChild folder (FileData_new GAME filePath)
        else
          if is_directory (snd entry) then
            let newFolder :=
              populateFolder ctx (snd entry) (FileData_new FOLDER filePath) in
            if (children_count newFolder =? 0)%nat then folder
            else addChild folder newFolder
          else folder)
    entries folder
  = add_children folder (flat_map (entry_children ctx folderPath) entries).
Proof.
  revert folder. induction entries as [|entry entries IH]; intros folder.
  - simpl. by rewrite add_children_nil.
  - cbn [fold_left flat_map]. rewrite IH, populateFolder_entry.
    apply add_children_app.
Qed.

Lemma populateFolder_not_directory folder :
  populateFolder ctx fs_file folder = folder.
Proof. reflexivity. Qed.

Lemma populateFolder_recursive_symlink link entries folder :
  symlink_recurses link (getPath folder) = true →
  populateFolder ctx (fs_dir link entries) folder = folder.
Proof. intros H. simpl. by rewrite H. Qed.

End PopulateFolder.

(** C1, corrected. For a folder whose path is a directory that is not a
    symbolic link resolving to a prefix of that path, [populateFolder] adds
    to the folder, in directory order, the children of each entry
    ([entry_children]): none for an entry with an empty stem; for an entry
    whose extension is in the search extensions, one GAME child, or none
    when the entry is hidden and hidden files are not shown; for any other
    entry that is a directory, the scanned subdirectory as a FOLDER child
    if and only if the scan left it with a child; none otherwise. An entry
    with an empty stem and a hidden entry with a listed extension are not
    scanned, directories or not. *)
Theorem populateFolder_scan (ctx : ScanContext) (link : option string)
    (entries : list (string * fs_node)) (folder : FileData) :
  symlink_recurses link (getPath folder) = false →
  populateFolder ctx (fs_dir link entries) folder
  = scan_result ctx entries folder.
Proof.
  intros H. unfold scan_result. simpl. rewrite H.
  apply populateFolder_fold.
Qed.

Lemma populateFolder_scan_witness :
  populateFolder nes_ctx (fs_dir None nes_entries) nes_root
  = scan_result nes_ctx nes_entries nes_root.
Proof. apply populateFolder_scan. reflexivity. Defined.

(** C1 as the claim words it fails: the dot directory [.saves] was not
    added as a game, is a directory and holds a game, and yet it is neither
    scanned nor added, because its stem is empty. *)
Lemma populateFolder_skips_dot_directory :
  symlink_recurses None (getPath nes_root) = false
  ∧ populateFolder nes_ctx (fs_dir None dot_dir_entries) nes_root = nes_root
  ∧ scan_result_as_claimed nes_ctx dot_dir_entries nes_root
    = add_children nes_root
        [mkFileData FOLDER "/roms/nes/.saves" []
           [FileData_new GAME "/roms/nes/.saves/zelda.nes"]]
  ∧ populateFolder nes_ctx (fs_dir None dot_dir_entries) nes_root
    ≠ scan_result_as_claimed nes_ctx dot_dir_entries nes_root.
Proof.
  split; [reflexivity|]. split; [vm_compute; reflexivity|].
  split; [vm_compute; reflexivity|]. vm_compute. discriminate.
Qed.

Example populateFolder_example :
  populateFolder nes_ctx (fs_dir None nes_entries) nes_root
  = mkFileData FOLDER "/roms/nes" []
      [ FileData_new GAME "/roms/nes/mario.nes";
        mkFileData FOLDER "/roms/nes/hacks" []
          [FileData_new GAME "/roms/nes/hacks/kirby.NES"] ].
Proof. vm_compute. reflexivity. Qed.

(** ** Path resolution *)

(** C6. [getThemePath] looks in a fixed order: it returns
    [rootFolder/theme.xml] if that file exists; otherwise the theme of the
    system in the current theme set if that file exists; otherwise the
    [theme.xml] two [parent_path] steps above the theme-set path, whether
    that file exists or not. *)
Theorem getThemePath_order (ext : Externals) (env : Env) (sys : SystemData) :
  (fs_exists env (root_theme sys) = true →
     getThemePath ext env sys = root_theme sys)
  ∧ (fs_exists env (root_theme sys) = false →
     fs_exists env (set_theme ext sys) = true →
     getThemePath ext env sys = set_theme ext sys)
  ∧ (fs_exists env (root_theme sys) = false →
     fs_exists env (set_theme ext sys) = false →
     getThemePath ext env sys = default_theme ext sys).
Proof.
  unfold getThemePath, root_theme, default_theme, set_theme.
  repeat split; intros H1; try intros H2; rewrite H1; try rewrite H2;
    reflexivity.
Qed.

(** The default theme is returned although it does not exist. *)
Lemma getThemePath_order_witness :
  fs_exists pi_env (root_theme gb_system) = false
  ∧ fs_exists pi_env (set_theme plain_externals gb_system) = false
  ∧ getThemePath plain_externals pi_env gb_system
    = "/home/pi/.emulationstation/themes/carbon/theme.xml"
  ∧ fs_exists pi_env "/home/pi/.emulationstation/themes/carbon/theme.xml"
    = false.
Proof.
  split; [vm_compute; reflexivity|]. split; [vm_compute; reflexivity|].
  split; [|vm_compute; reflexivity].
  etrans.
  - apply (getThemePath_order plain_externals pi_env); vm_compute; reflexivity.
  - vm_compute. reflexivity.
Defined.

(** C7. [getGamelistPath] looks in a fixed order: [rootFolder/gamelist.xml]
    if that file exists; otherwise the path of the system under the home
    [.emulationstation/gamelists] directory, returned whenever [forWrite]
    is set (its parent directories having been created) or the file exists;
    the [/etc/emulationstation] path only when [forWrite] is not set and
    neither file exists. [hasGamelist] holds exactly when the path
    [getGamelistPath(false)] returns exists. *)
Theorem getGamelistPath_order (env : Env) (sys : SystemData) :
  (fs_exists env (root_gamelist sys) = true →
     ∀ forWrite, getGamelistPath env sys forWrite = (root_gamelist sys, []))
  ∧ (fs_exists env (root_gamelist sys) = false →
     getGamelistPath env sys true
     = (home_gamelist env sys,
        [EvCreateDirectories (Path.parent_path (home_gamelist env sys))]))
  ∧ (fs_exists env (root_gamelist sys) = false →
     fs_exists env (home_gamelist env sys) = true →
     getGamelistPath env sys false = (home_gamelist env sys, []))
  ∧ (fs_exists env (root_gamelist sys) = false →
     fs_exists env (home_gamelist env sys) = false →
     getGamelistPath env sys false = (etc_gamelist sys, []))
  ∧ (hasGamelist env sys = true
     ↔ fs_exists env (fst (getGamelistPath env sys false)) = true)
  ∧ (hasGamelist env sys = true
     ↔ fs_exists env (root_gamelist sys) = true
       ∨ fs_exists env (home_gamelist env sys) = true
       ∨ fs_exists env (etc_gamelist sys) = true).
Proof.
  unfold hasGamelist, getGamelistPath, root_gamelist, home_gamelist,
    etc_gamelist.
  repeat split.
  - intros H forWrite. rewrite H. reflexivity.
  - intros H. rewrite H. reflexivity.
  - intros H1 H2. rewrite H1. simpl. rewrite H2. reflexivity.
  - intros H1 H2. rewrite H1. simpl. rewrite H2. reflexivity.
  - intros H. exact H.
  - intros H. exact H.
  - destruct (fs_exists env (getPath (mRootFolder sys) // "gamelist.xml"))
      eqn:E1; simpl; [tauto|].
    destruct (fs_exists env
                (getHomePath env +:+ "/.emulationstation/gamelists/"
                 +:+ mName sys +:+ "/gamelist.xml")) eqn:E2; simpl; tauto.
  - destruct (fs_exists env (getPath (mRootFolder sys) // "gamelist.xml"))
      eqn:E1; simpl; [tauto|].
    destruct (fs_exists env
                (getHomePath env +:+ "/.emulationstation/gamelists/"
                 +:+ mName sys +:+ "/gamelist.xml")) eqn:E2; simpl.
    + intros _. exact E2.
    + intros [H|[H|H]]; try discriminate. exact H.
Qed.

Lemma getGamelistPath_order_witness :
  fs_exists pi_env (root_gamelist (nes_system nes_root)) = false
  ∧ getGamelistPath pi_env (nes_system nes_root) true
    = ("/home/pi/.emulationstation/gamelists/nes/gamelist.xml",
       [EvCreateDirectories "/home/pi/.emulationstation/gamelists/nes"])
  ∧ getGamelistPath pi_env (nes_system nes_root) false
    = ("/etc/emulationstation/gamelists/nes/gamelist.xml", []).
Proof.
  pose proof (getGamelistPath_order pi_env (nes_system nes_root))
    as (_ & Hw & _ & Hr & _).
  split; [vm_compute; reflexivity|]. split.
  - etrans; [apply Hw; vm_compute; reflexivity|]. vm_compute. reflexivity.
  - etrans; [apply Hr; vm_compute; reflexivity|]. vm_compute. reflexivity.
Defined.

(** ** The constructor *)

Lemma getPath_set_metadata k v f : getPath (set_metadata k v f) = getPath f.
Proof. destruct f. reflexivity. Qed.

Lemma mRootFolder_loadTheme ext env sys :
  mRootFolder (loadTheme ext env sys) = mRootFolder sys.
Proof. reflexivity. Qed.

(** C9. For a system that is not a collection the constructor scans the
    ROM directory unless ParseGamelistOnly is set, merges the gamelist
    unless IgnoreGamelist is set, and then sorts the root folder by the
    first entry of the sort table, in this order; for a collection system
    none of the three steps runs and the root folder is created empty. *)
Theorem SystemData_new_steps (ext : Externals) (env : Env)
    (name fullName : string) (envData : SystemEnvironmentData)
    (themeFolder : string) :
  (let '(sys, steps) :=
     SystemData_new ext env name fullName envData themeFolder false in
   mRootFolder sys
   = sortFolder ext (SortTypes_at_0 ext)
       (merged_root ext env name fullName envData)
   ∧ steps
     = (if getBool env "ParseGamelistOnly" then []
        else [EvPopulateFolder (mStartPath envData)])
       ++ (if getBool env "IgnoreGamelist" then []
           else [EvParseGamelist name])
       ++ [EvSortRoot (SortTypes_at_0 ext)])
  ∧ (let '(sys, steps) :=
       SystemData_new ext env name fullName envData themeFolder true in
     mRootFolder sys = FileData_new FOLDER name
     ∧ getChildren (mRootFolder sys) = []
     ∧ steps = []).
Proof.
  split.
  - unfold SystemData_new, build_root, merged_root, scanned_root, fresh_root.
    simpl negb. cbv iota.
    rewrite !getPath_set_metadata. simpl getPath.
    destruct (getBool env "ParseGamelistOnly");
      destruct (getBool env "IgnoreGamelist"); simpl; split; reflexivity.
  - unfold SystemData_new. simpl. repeat split; reflexivity.
Qed.

Example SystemData_new_example :
  let '(sys, steps) :=
    SystemData_new plain_externals pi_env "nes" "Nintendo"
      {| mStartPath := "/home/pi/roms/nes";
         mSearchExtensions := [".nes"]; mLaunchCommand := "run";
         mPlatformIds := [] |} "nes" false in
  map getPath (getChildren (mRootFolder sys))
  = ["/home/pi/roms/nes/mario.nes"]
  ∧ steps = [EvPopulateFolder "/home/pi/roms/nes"; EvParseGamelist "nes";
             EvSortRoot (mkSortType "filename, ascending")].
Proof. vm_compute. split; reflexivity. Qed.

(** ** Game lists and counts *)

(** Induction on a file tree. *)
Lemma FileData_tree_ind (P : FileData → Prop) :
  (∀ t p m cs, Forall P cs → P (mkFileData t p m cs)) →
  ∀ f, P f.
Proof.
  intros H. fix IH 1. intros [t p m cs]. apply H.
  induction cs as [|c cs IHcs]; constructor; [apply IH|exact IHcs].
Qed.

Lemma getFilesRecursive_displayed_sublist idx typeMask f :
  getFilesRecursive idx typeMask true f
  `sublist_of` getFilesRecursive idx typeMask false f.
Proof.
  induction f as [t p m cs IH] using FileData_tree_ind. simpl.
  induction IH as [|c cs Hc _ IHcs]; simpl; [constructor|].
  apply sublist_app; [apply sublist_app|]; [|exact Hc|exact IHcs].
  destruct (negb (Z.land (FileType_code (getType c)) typeMask =? 0)); simpl;
    [|constructor].
  destruct (negb (isFiltered idx) || showFile idx c);
    [reflexivity|apply sublist_nil_l].
Qed.

Lemma getFilesRecursive_type idx typeMask displayedOnly f :
  Forall (λ c, Z.land (FileType_code (getType c)) typeMask ≠ 0)
    (getFilesRecursive idx typeMask displayedOnly f).
Proof.
  induction f as [t p m cs IH] using FileData_tree_ind. simpl.
  induction IH as [|c cs Hc _ IHcs]; simpl; [constructor|].
  apply Forall_app. split; [apply Forall_app; split|]; [|exact Hc|exact IHcs].
  destruct (Z.eqb_spec (Z.land (FileType_code (getType c)) typeMask) 0);
    simpl; [constructor|].
  destruct (negb displayedOnly || negb (isFiltered idx) || showFile idx c);
    constructor; [assumption|constructor].
Qed.

Lemma displayed_games_sublist sys :
  displayed_games sys `sublist_of` all_games sys.
Proof. apply getFilesRecursive_displayed_sublist. Qed.

Lemma wrap32_small z : 0 <= z < 2 ^ 32 → wrap32 z = z.
Proof. intros H. unfold wrap32. apply Z.mod_small. exact H. Qed.

(** C8. For a system with fewer than [2^32] games, [getGameCount] is the
    length of the recursive GAME list of the root folder,
    [getDisplayedGameCount] the length of the displayed part of it, and the
    second is at most the first. *)
Theorem game_counts (sys : SystemData) :
  Z.of_nat (length (all_games sys)) < 2 ^ 32 →
  getGameCount sys = Z.of_nat (length (all_games sys))
  ∧ getDisplayedGameCount sys = Z.of_nat (length (displayed_games sys))
  ∧ getDisplayedGameCount sys <= getGameCount sys.
Proof.
  intros Hsize.
  pose proof (sublist_length _ _ (displayed_games_sublist sys)) as Hle.
  unfold getGameCount, getDisplayedGameCount.
  fold (all_games sys) (displayed_games sys).
  rewrite !wrap32_small by lia. lia.
Qed.

Lemma game_counts_witness :
  getGameCount filtered_system = 3
  ∧ getDisplayedGameCount filtered_system = 1
  ∧ getDisplayedGameCount filtered_system <= getGameCount filtered_system.
Proof.
  destruct (game_counts filtered_system) as (H1 & H2 & H3).
  - vm_compute. reflexivity.
  - rewrite H1, H2. split; [reflexivity|]. split; [reflexivity|].
    vm_compute. discriminate.
Defined.

(** ** Random selection *)

Section RandomTarget.

Variable pf : Platform.
Hypothesis pf_ok : ieee_like pf.

Lemma rand_ratio_bounds r :
  0 <= r <= RAND_MAX pf →
  (0 <= inject_Z r / inject_Z (RAND_MAX pf)
   ∧ inject_Z r / inject_Z (RAND_MAX pf) <= 1)%Q.
Proof.
  intros Hr. pose proof (RAND_MAX_pos pf pf_ok) as HR.
  assert (HRq : (inject_Z 0 < inject_Z (RAND_MAX pf))%Q)
    by (rewrite <- Zlt_Qlt; exact HR).
  split.
  - apply Qle_shift_div_l; [exact HRq|]. rewrite Qmult_0_l.
    change (inject_Z 0 <= inject_Z r)%Q. rewrite <- Zle_Qle. lia.
  - apply Qle_shift_div_r; [exact HRq|]. rewrite Qmult_1_l.
    rewrite <- Zle_Qle. lia.
Qed.

Lemma fl_unit_interval x : (0 <= x ∧ x <= 1)%Q → (0 <= fl pf x ∧ fl pf x <= 1)%Q.
Proof.
  intros [H0 H1]. split.
  - rewrite <- (fl_integer pf pf_ok 0) by lia.
    apply (fl_monotone pf pf_ok). exact H0.
  - rewrite <- (fl_integer pf pf_ok 1) by lia.
    apply (fl_monotone pf pf_ok). exact H1.
Qed.

Lemma scaled_bounds r m :
  0 <= r <= RAND_MAX pf → 0 <= m <= 2 ^ 32 →
  (0 <= fl pf (fl pf (inject_Z r / inject_Z (RAND_MAX pf)) * inject_Z m)
   ∧ fl pf (fl pf (inject_Z r / inject_Z (RAND_MAX pf)) * inject_Z m)
     <= inject_Z m)%Q.
Proof.
  intros Hr Hm.
  destruct (fl_unit_interval _ (rand_ratio_bounds r Hr)) as [H0 H1].
  assert (Hmq : (inject_Z 0 <= inject_Z m)%Q) by (rewrite <- Zle_Qle; lia).
  split.
  - rewrite <- (fl_integer pf pf_ok 0) by lia.
    apply (fl_monotone pf pf_ok). apply Qmult_le_0_compat; assumption.
  - rewrite <- (fl_integer pf pf_ok m) at 2 by lia.
    apply (fl_monotone pf pf_ok).
    rewrite <- (Qmult_1_l (inject_Z m)) at 2.
    apply Qmult_le_compat_r; assumption.
Qed.

Lemma round_half_away_bounds (x : Q) (m : Z) :
  (0 <= x)%Q → (x <= inject_Z m)%Q → 0 <= round_half_away x <= m.
Proof.
  intros H0 Hm. unfold round_half_away.
  assert (Hb : Qle_bool 0 x = true) by (apply Qle_bool_iff; exact H0).
  rewrite Hb. split.
  - rewrite <- (Qfloor_Z 0). apply Qfloor_resp_le.
    apply Qle_trans with x; [exact H0|].
    rewrite <- (Qplus_0_r x) at 1. apply Qplus_le_compat; [apply Qle_refl|].
    discriminate.
  - assert (Hlt : (inject_Z (Qfloor (x + (1 # 2))) < inject_Z (m + 1))%Q).
    { eapply Qle_lt_trans; [apply Qfloor_le|].
      eapply Qle_lt_trans; [apply Qplus_le_compat; [exact Hm|apply Qle_refl]|].
      rewrite inject_Z_plus. apply Qplus_lt_r. reflexivity. }
    rewrite <- Zlt_Qlt in Hlt. lia.
Qed.

(** The index computed from [std::rand()] lies between [0] and [m]. *)
Lemma random_target_bounds r m :
  0 <= r <= RAND_MAX pf → 0 <= m <= INT_MAX →
  ∃ t, random_target pf r m = Returns t ∧ 0 <= t <= m.
Proof.
  intros Hr Hm. unfold INT_MAX in Hm.
  destruct (scaled_bounds r m Hr) as [H0 H1]; [lia|].
  pose proof (round_half_away_bounds _ m H0 H1) as Hy.
  eexists. split; [|exact Hy].
  unfold random_target, INT_MIN, INT_MAX.
  destruct (Z.leb_spec (- 2 ^ 31)
    (round_half_away
       (fl pf (fl pf (inject_Z r / inject_Z (RAND_MAX pf)) * inject_Z m))));
    [|lia].
  destruct (Z.leb_spec
    (round_half_away
       (fl pf (fl pf (inject_Z r / inject_Z (RAND_MAX pf)) * inject_Z m)))
    (2 ^ 31 - 1)); [|lia].
  reflexivity.
Qed.

End RandomTarget.

Lemma exact_platform_ieee_like rand_max :
  0 < rand_max → ieee_like (exact_platform rand_max).
Proof.
  intros H. constructor; simpl.
  - exact H.
  - intros x y Hxy. exact Hxy.
  - intros z _. reflexivity.
Qed.

Lemma wrap64_small z : 0 <= z < 2 ^ 64 → wrap64 z = z.
Proof. intros H. unfold wrap64. apply Z.mod_small. exact H. Qed.

Lemma vector_at_in_range {A} (l : list A) (t : Z) :
  0 <= t < Z.of_nat (length l) →
  Z.of_nat (length l) < 2 ^ 64 →
  ∃ x, vector_at l t = Returns x ∧ l !! Z.to_nat t = Some x.
Proof.
  intros Ht Hl. unfold vector_at. rewrite wrap64_small by lia.
  destruct (Z.ltb_spec t (Z.of_nat (length l))); [|lia].
  destruct (lookup_lt_is_Some_2 l (Z.to_nat t)) as [x Hx]; [lia|].
  exists x. rewrite Hx. split; reflexivity.
Qed.

(** C4. For a system whose displayed game list has at most [2^31]
    elements, [getRandomGame] returns NULL if and only if the recursive
    displayed GAME list of the root folder is empty; otherwise the index it
    computes lies within the list and it returns an element of the list. *)
Theorem getRandomGame_result (pf : Platform) (r : Z) (sys : SystemData) :
  ieee_like pf →
  0 <= r <= RAND_MAX pf →
  Z.of_nat (length (displayed_games sys)) <= 2 ^ 31 →
  (getRandomGame pf r sys = Returns None ↔ displayed_games sys = [])
  ∧ (displayed_games sys ≠ [] →
     ∃ f, getRandomGame pf r sys = Returns (Some f)
          ∧ f ∈ displayed_games sys).
Proof.
  intros Hpf Hr Hlen. unfold getRandomGame. fold (displayed_games sys).
  destruct (displayed_games sys) as [|g gs] eqn:El.
  - simpl. split; [split; reflexivity|]. intros H. contradiction.
  - rewrite <- El in *.
    assert (Hpos : 1 <= Z.of_nat (length (displayed_games sys)))
      by (rewrite El; simpl; lia).
    rewrite (wrap32_small (Z.of_nat _)) by lia.
    destruct (Z.eqb_spec (Z.of_nat (length (displayed_games sys))) 0); [lia|].
    rewrite wrap32_small by lia.
    destruct (random_target_bounds pf Hpf r
                (Z.of_nat (length (displayed_games sys)) - 1) Hr)
      as (t & Ht & Hrange); [unfold INT_MAX; lia|].
    rewrite Ht.
    destruct (vector_at_in_range (displayed_games sys) t) as (x & Hx & Hlook);
      [lia|lia|].
    rewrite Hx.
    assert (Hin : x ∈ displayed_games sys)
      by (eapply list_elem_of_lookup_2; exact Hlook).
    split.
    + split; [discriminate|]. rewrite El. discriminate.
    + intros _. exists x. split; [reflexivity|exact Hin].
Qed.

Lemma getRandomGame_result_witness :
  (getRandomGame (exact_platform 2147483647) 1500000000 filtered_system
     = Returns None
   ↔ displayed_games filtered_system = [])
  ∧ (displayed_games filtered_system ≠ [] →
     ∃ f, getRandomGame (exact_platform 2147483647) 1500000000 filtered_system
          = Returns (Some f)
          ∧ f ∈ displayed_games filtered_system).
Proof.
  apply (getRandomGame_result (exact_platform 2147483647) 1500000000
           filtered_system).
  - apply exact_platform_ieee_like. reflexivity.
  - simpl. lia.
  - vm_compute. discriminate.
Defined.

Example getRandomGame_example :
  getRandomGame (exact_platform 2147483647) 1500000000 unfiltered_system
  = Returns (Some (FileData_new GAME "/roms/nes/hacks/kirby.NES"))
  ∧ getRandomGame (exact_platform 2147483647) 2147483647 unfiltered_system
    = Returns (Some (FileData_new GAME "/roms/nes/hacks/metroid.nes"))
  ∧ getRandomGame (exact_platform 2147483647) 0
      (nes_system (FileData_new FOLDER "/roms/nes"))
    = Returns None.
Proof. vm_compute. repeat split; reflexivity. Qed.

Lemma count_game_systems_fold systems total :
  0 <= total →
  total + Z.of_nat (length systems) < 2 ^ 32 →
  fold_left (λ total s, if isGameSystem s then wrap32 (total + 1) else total)
    systems total
  = total + Z.of_nat (length (game_systems systems)).
Proof.
  revert total. induction systems as [|s systems IH]; intros total H0 Hlt;
    simpl in *.
  - lia.
  - destruct (isGameSystem s); simpl.
    + rewrite wrap32_small by lia. rewrite IH by lia. lia.
    + apply IH; lia.
Qed.

Lemma count_game_systems_length systems :
  Z.of_nat (length systems) < 2 ^ 32 →
  count_game_systems systems = Z.of_nat (length (game_systems systems)).
Proof.
  intros H. unfold count_game_systems.
  rewrite count_game_systems_fold by lia. lia.
Qed.

Lemma game_systems_length systems :
  (length (game_systems systems) ≤ length systems)%nat.
Proof.
  induction systems as [|s systems IH]; simpl; [lia|].
  destruct (isGameSystem s); simpl; lia.
Qed.

Lemma game_systems_elem s systems :
  s ∈ game_systems systems ↔ s ∈ systems ∧ isGameSystem s = true.
Proof.
  induction systems as [|x systems IH]; simpl.
  - split; [intros H; inversion H|intros [H _]; inversion H].
  - destruct (isGameSystem x) eqn:E.
    + rewrite !elem_of_cons, IH. split.
      * intros [->|[H1 H2]]; [split; [by left|exact E]|split; [by right|exact H2]].
      * intros [[->|H1] H2]; [by left|right; by split].
    + rewrite IH, elem_of_cons. split.
      * intros [H1 H2]. split; [by right|exact H2].
      * intros [[->|H1] H2]; [congruence|by split].
Qed.

(** The selection loop returns the game system number [target]. *)
Lemma pick_system_game_system systems :
  ∀ target,
    0 <= target < Z.of_nat (length (game_systems systems)) →
    ∃ s, pick_system target systems = Returns s
         ∧ game_systems systems !! Z.to_nat target = Some s.
Proof.
  induction systems as [|x systems IH]; intros target Ht; simpl in *.
  - lia.
  - destruct (isGameSystem x) eqn:E; simpl in *.
    + destruct (Z.ltb_spec 0 target).
      * destruct (IH (target - 1)) as (s & Hs & Hl); [lia|].
        exists s. split; [exact Hs|].
        replace (Z.to_nat target) with (S (Z.to_nat (target - 1))) by lia.
        exact Hl.
      * exists x. split; [reflexivity|].
        replace target with 0 by lia. reflexivity.
    + apply IH. exact Ht.
Qed.

Lemma pick_system_no_game_system systems target :
  game_systems systems = [] → pick_system target systems = Undefined.
Proof.
  revert target. induction systems as [|x systems IH]; intros target H;
    simpl in *; [reflexivity|].
  destruct (isGameSystem x); [discriminate|]. apply IH. exact H.
Qed.

(** When [sSystemVector] (of at most [2^31] systems) holds a system for
    which [isGameSystem()] holds, [getRandomSystem] returns a system of the
    vector for which [isGameSystem()] holds: the selection loop reaches its
    [return]. *)
Theorem getRandomSystem_result (pf : Platform) (r : Z) (st : State) :
  ieee_like pf →
  0 <= r <= RAND_MAX pf →
  Z.of_nat (length (sSystemVector st)) <= 2 ^ 31 →
  (∃ s, s ∈ sSystemVector st ∧ isGameSystem s = true) →
  ∃ s, getRandomSystem pf r st = Returns s
       ∧ s ∈ sSystemVector st ∧ isGameSystem s = true.
Proof.
  intros Hpf Hr Hlen (g & Hg & Hgame). unfold getRandomSystem.
  pose proof (game_systems_length (sSystemVector st)) as Hle.
  assert (Hpos : 1 <= Z.of_nat (length (game_systems (sSystemVector st)))).
  { assert (Hin : g ∈ game_systems (sSystemVector st))
      by (apply game_systems_elem; split; assumption).
    destruct (game_systems (sSystemVector st)); [inversion Hin|simpl; lia]. }
  rewrite count_game_systems_length by lia.
  rewrite wrap32_small by lia.
  destruct (random_target_bounds pf Hpf r
              (Z.of_nat (length (game_systems (sSystemVector st))) - 1) Hr)
    as (t & Ht & Hrange); [unfold INT_MAX; lia|].
  rewrite Ht.
  destruct (pick_system_game_system (sSystemVector st) t) as (s & Hs & Hl);
    [lia|].
  exists s. split; [exact Hs|].
  apply game_systems_elem. eapply list_elem_of_lookup_2. exact Hl.
Qed.

Lemma getRandomSystem_result_witness :
  ∃ s, getRandomSystem (exact_platform 2147483647) 1500000000
         {| sSystemVector := [retropie_system; filtered_system;
                              unfiltered_system];
            events := [] |} = Returns s
       ∧ s ∈ [retropie_system; filtered_system; unfiltered_system]
       ∧ isGameSystem s = true.
Proof.
  apply (getRandomSystem_result (exact_platform 2147483647) 1500000000
           {| sSystemVector := [retropie_system; filtered_system;
                                unfiltered_system];
              events := [] |}).
  - apply exact_platform_ieee_like. reflexivity.
  - simpl. lia.
  - simpl. lia.
  - exists filtered_system. split; [|reflexivity].
    apply elem_of_cons. right. apply elem_of_cons. left. reflexivity.
Defined.

(** C5, at the inputs where the code fails it. With an empty
    [sSystemVector], and with one that holds no game system, the count is
    [0], [total - 1] wraps to [4294967295], and the selection loop ends
    without reaching a [return]: control falls off the end of the function
    and no system is returned. [getRandomGame] guards the same case with
    [if (total == 0) return NULL]. *)
Lemma getRandomSystem_no_game_system :
  getRandomSystem (exact_platform 2147483647) 0 empty_state = Undefined
  ∧ getRandomSystem (exact_platform 2147483647) 1500000000 empty_state
    = Undefined
  ∧ getRandomSystem (exact_platform 2147483647) 0
      {| sSystemVector := [retropie_system]; events := [] |} = Undefined
  ∧ wrap32 (count_game_systems (sSystemVector empty_state) - 1) = 4294967295.
Proof. vm_compute. repeat split; reflexivity. Qed.

(** ** loadConfig *)

Section LoadConfig.

Variable ext : Externals.
Variable env : Env.

Lemma SystemData_new_fields name fullName envData themeFolder collection :
  let sys :=
    fst (SystemData_new ext env name fullName envData themeFolder collection) in
  mName sys = name ∧ mEnvData sys = envData
  ∧ mIsCollectionSystem sys = collection.
Proof.
  unfold SystemData_new.
  destruct (if negb collection then build_root ext env name fullName envData
            else (FileData_new FOLDER (EmptyString +:+ name), []))
    as [root evs].
  simpl. repeat split; reflexivity.
Qed.

Lemma load_system_vector st system :
  sSystemVector (load_system ext env st system)
  = sSystemVector st ++ entry_registers ext env system.
Proof.
  unfold load_system, entry_registers, entry_valid, entry_system.
  cbv zeta.
  destruct (empty (text_get (child (Some system) "name"))
            || empty (text_get (child (Some system) "path"))
            || bool_decide
                 (readList_vec (text_get (child (Some system) "extension")) = [])
            || empty (text_get (child (Some system) "command"))).
  - simpl. by rewrite app_nil_r.
  - simpl negb. cbv iota.
    destruct (SystemData_new ext env _ _ _ _ false) as [newSys built]. simpl fst.
    destruct (children_count (getRootFolder newSys) =? 0)%nat; simpl.
    + by rewrite app_nil_r.
    + reflexivity.
Qed.

Lemma load_systems_vector nodes st :
  sSystemVector (fold_left (load_system ext env) nodes st)
  = sSystemVector st ++ flat_map (entry_registers ext env) nodes.
Proof.
  revert st. induction nodes as [|n nodes IH]; intros st; simpl.
  - by rewrite app_nil_r.
  - rewrite IH, load_system_vector, <- app_assoc. reflexivity.
Qed.


Lemma expand_home_nonempty path :
  getHomePath env ≠ EmptyString → path ≠ EmptyString →
  expand_home env path ≠ EmptyString.
Proof.
  intros Hhome Hpath. unfold expand_home.
  destruct path as [|c rest]; [contradiction|].
  destruct c as [[] [] [] [] [] [] [] []]; try discriminate.
  destruct (getHomePath env); [contradiction|discriminate].
Qed.

Lemma entry_system_fields system :
  mName (entry_system ext env system)
  = text_get (child (Some system) "name")
  ∧ getStartPath (entry_system ext env system)
    = expand_home env (text_get (child (Some system) "path"))
  ∧ mLaunchCommand (mEnvData (entry_system ext env system))
    = text_get (child (Some system) "command")
  ∧ mSearchExtensions (mEnvData (entry_system ext env system))
    = readList_vec (text_get (child (Some system) "extension")).
Proof.
  unfold entry_system, getStartPath. cbv zeta.
  match goal with
  | |- context [SystemData_new ext env ?n ?f ?e ?t false] =>
      destruct (SystemData_new_fields n f e t false) as (E1 & E2 & _)
  end.
  rewrite E1, E2. repeat split; reflexivity.
Qed.






Lemma loadConfig_vector st :
  sSystemVector (snd (loadConfig ext env st))
  = if fst (loadConfig ext env st)
    then loadCollectionSystems ext (configured_systems ext env)
    else [].
Proof.
  unfold loadConfig, configured_systems, system_nodes.
  destruct (fs_exists env (getConfigPath env false)); simpl; [|reflexivity].
  destruct (xml_files env !! getConfigPath env false) as [doc|]; simpl;
    [|reflexivity].
  destruct (first_named "systemList" doc) as [systemList|]; simpl;
    [|reflexivity].
  rewrite load_systems_vector. reflexivity.
Qed.

End LoadConfig.

(** C2. [loadConfig] returns false in exactly three cases: the
    configuration file at [getConfigPath(false)] does not exist, in which
    case the example configuration is written to [getConfigPath(true)]; the
    file exists and cannot be parsed; the document has no [<systemList>]
    child. In every other case it returns true, and the systems registered
    are those of the [<system>] elements that are valid and have a game:
    the other elements are skipped and the load goes on. *)
Theorem loadConfig_returns (ext : Externals) (env : Env) (st : State) :
  fst (loadConfig ext env st)
  = negb (config_missing env || config_unparsable env
          || config_lacks_systemList env)
  ∧ (config_missing env = true →
     snd (loadConfig ext env st)
     = {| sSystemVector := [];
          events := events (deleteSystems env st)
                    ++ [EvWriteExampleConfig (getConfigPath env true)] |})
  ∧ (fst (loadConfig ext env st) = true →
     sSystemVector (snd (loadConfig ext env st))
     = loadCollectionSystems ext (configured_systems ext env)).
Proof.
  split; [|split].
  - unfold loadConfig, config_missing, config_unparsable,
      config_lacks_systemList.
    destruct (fs_exists env (getConfigPath env false)); simpl; [|reflexivity].
    destruct (xml_files env !! getConfigPath env false) as [doc|]; simpl;
      [|reflexivity].
    destruct (first_named "systemList" doc); reflexivity.
  - unfold loadConfig, config_missing. intros H. rewrite H. reflexivity.
  - intros H. rewrite loadConfig_vector, H. reflexivity.
Qed.

Lemma loadConfig_returns_witness :
  fst (loadConfig plain_externals no_config_env empty_state) = false
  ∧ snd (loadConfig plain_externals no_config_env empty_state)
    = {| sSystemVector := [];
         events := [EvWriteExampleConfig
                      "/home/pi/.emulationstation/es_systems.cfg"] |}
  ∧ fst (loadConfig plain_externals bad_xml_env empty_state) = false
  ∧ fst (loadConfig plain_externals no_list_env empty_state) = false
  ∧ fst (loadConfig plain_externals pi_env empty_state) = true
  ∧ map mName (sSystemVector (snd (loadConfig plain_externals pi_env empty_state)))
    = ["nes"].
Proof.
  destruct (loadConfig_returns plain_externals no_config_env empty_state)
    as (H1 & H2 & _).
  destruct (loadConfig_returns plain_externals bad_xml_env empty_state)
    as (H3 & _).
  destruct (loadConfig_returns plain_externals no_list_env empty_state)
    as (H4 & _).
  destruct (loadConfig_returns plain_externals pi_env empty_state)
    as (H5 & _ & H6).
  split; [rewrite H1; vm_compute; reflexivity|].
  split; [rewrite H2; vm_compute; reflexivity|].
  split; [rewrite H3; vm_compute; reflexivity|].
  split; [rewrite H4; vm_compute; reflexivity|].
  split; [rewrite H5; vm_compute; reflexivity|].
  rewrite H6; vm_compute; reflexivity.
Defined.

Example loadConfig_example :
  let '(ok, st) := loadConfig plain_externals pi_env empty_state in
  ok = true
  ∧ map (λ s, (mName s, getStartPath s)) (sSystemVector st)
    = [("nes", "/home/pi/roms/nes")]
  ∧ events st
    = [ EvPopulateFolder "/home/pi/roms/nes"; EvParseGamelist "nes";
        EvSortRoot (mkSortType "filename, ascending");
        EvPopulateFolder "/home/pi/roms/snes"; EvParseGamelist "snes";
        EvSortRoot (mkSortType "filename, ascending");
        EvLoadCollectionSystems ].
Proof. vm_compute. repeat split; reflexivity. Qed.

Lemma plain_externals_within_start_path :
  roots_within_start_path plain_externals.
Proof. constructor; intros; assumption. Qed.

Lemma collection_externals_within_start_path :
  roots_within_start_path collection_externals.
Proof. constructor; intros; assumption. Qed.



(** Without a home directory the path [~] expands to the empty path:
    nothing is scanned there and the system is not registered. *)
Example loadConfig_without_home :
  fst (loadConfig plain_externals homeless_env empty_state) = true
  ∧ sSystemVector (snd (loadConfig plain_externals homeless_env empty_state))
    = [].
Proof. vm_compute. split; reflexivity. Qed.


(** * More about the code *)

(** A decidable statement about concrete data, settled by evaluation. *)
Ltac by_evaluation :=
  refine (proj1 (bool_decide_eq_true _) _); vm_compute; reflexivity.

(** ** The shape of a scanned tree *)

(** Induction on what the file system shows. *)
Lemma fs_node_tree_ind (P : fs_node → Prop) :
  P fs_file →
  (∀ link entries, Forall (λ e, P (snd e)) entries → P (fs_dir link entries)) →
  ∀ n, P n.
Proof.
  intros Hfile Hdir. fix IH 1. intros [|link entries]; [exact Hfile|].
  apply Hdir. induction entries as [|[name sub] entries IHe]; constructor;
    [apply IH|exact IHe].
Qed.

Lemma populateFolder_appends_scanned ctx node :
  ∀ folder, ∃ new,
    populateFolder ctx node folder = add_children folder new
    ∧ Forall (Scanned ctx (getPath folder)) new.
Proof.
  induction node as [|link entries IH] using fs_node_tree_ind; intros folder.
  - exists []. split; [by rewrite add_children_nil|constructor].
  - simpl. destruct (symlink_recurses link (getPath folder)).
    { exists []. split; [by rewrite add_children_nil|constructor]. }
    rewrite populateFolder_fold.
    exists (flat_map (entry_children ctx (getPath folder)) entries).
    split; [reflexivity|].
    induction IH as [|[name sub] entries Hsub _ IHentries]; simpl;
      [constructor|].
    apply Forall_app. split; [|exact IHentries].
    unfold entry_children. simpl fst. simpl snd.
    destruct (empty (Path.stem (getPath folder // name))) eqn:Hstem;
      [constructor|].
    destruct (bool_decide
                (Path.extension (getPath folder // name) ∈ searchExtensions ctx))
      eqn:Hext.
    + apply bool_decide_eq_true in Hext.
      destruct (showHidden ctx) eqn:Hshow; simpl.
      * constructor; [|constructor].
        apply Scanned_game; [exact Hstem|exact Hext|congruence].
      * destruct (isHidden (getPath folder // name)) eqn:Hhid; simpl;
          constructor; [|constructor].
        apply Scanned_game; [exact Hstem|exact Hext|intros _; exact Hhid].
    + apply bool_decide_eq_false in Hext.
      destruct (is_directory sub); [|constructor].
      destruct (Hsub (FileData_new FOLDER (getPath folder // name)))
        as (new & Hnew & Hscanned).
      simpl in Hsub, Hnew, Hscanned. rewrite Hnew. simpl.
      destruct new as [|c cs]; constructor; [|constructor].
      apply Scanned_folder; assumption.
Qed.

Lemma string_append_cons (x : ascii) (a b : string) :
  String x a +:+ b = String x (a +:+ b).
Proof. reflexivity. Qed.

Lemma string_of_list_ascii_app l1 l2 :
  string_of_list_ascii (l1 ++ l2)
  = string_of_list_ascii l1 +:+ string_of_list_ascii l2.
Proof.
  induction l1 as [|c l1 IH]; simpl; [reflexivity|].
  by rewrite string_append_cons, IH.
Qed.

Lemma string_append_assoc (a b c : string) :
  (a +:+ b) +:+ c = a +:+ (b +:+ c).
Proof.
  induction a as [|x a IH]; [reflexivity|].
  by rewrite !string_append_cons, IH.
Qed.

Lemma prefix_append (p r : string) : String.prefix p (p +:+ r) = true.
Proof.
  induction p as [|x p IH]; [destruct r; reflexivity|].
  rewrite string_append_cons. simpl.
  destruct (ascii_dec x x); [exact IH|contradiction].
Qed.

(** [p / q] starts with [p]. *)
Lemma path_append_extends (p q : string) : ∃ rest, p // q = p +:+ rest.
Proof.
  unfold Path.append, Path.append_chars.
  destruct (list_ascii_of_string q) as [|c q'].
  - exists EmptyString. rewrite string_of_list_ascii_of_string.
    induction p as [|x p IH]; [reflexivity|].
    by rewrite string_append_cons, <- IH.
  - assert (Happ : ∀ x, string_of_list_ascii (list_ascii_of_string p ++ x)
                        = p +:+ string_of_list_ascii x)
      by (intros x; by rewrite string_of_list_ascii_app,
            string_of_list_ascii_of_string).
    destruct (bool_decide (c = Path.slash)); [eexists; apply Happ|].
    destruct (rev (list_ascii_of_string p)) as [|d r] eqn:Hrev.
    + apply (f_equal (@rev ascii)) in Hrev. rewrite rev_involutive in Hrev.
      simpl in Hrev. exists (string_of_list_ascii (c :: q')).
      rewrite <- (string_of_list_ascii_of_string p), Hrev. reflexivity.
    + destruct (bool_decide (d = Path.slash)); eexists; apply Happ.
Qed.

Lemma Forall_descendants (Q : FileData → Prop) cs :
  Forall (λ c, Q c ∧ Forall Q (descendants c)) cs →
  Forall Q (flat_map (λ c, c :: descendants c) cs).
Proof.
  induction 1 as [|c cs [Hc Hd] _ IH]; simpl; [constructor|].
  constructor; [exact Hc|]. apply Forall_app. split; assumption.
Qed.

(** Everything below a scanned file has the scanned shape and a path that
    extends the parent's, and a scanned file is or holds a game. *)
Lemma Scanned_tree ctx c :
  ∀ parent, Scanned ctx parent c →
    (scanned_file ctx c ∧ ∃ rest, getPath c = parent +:+ rest)
    ∧ Forall (λ d, scanned_file ctx d ∧ ∃ rest, getPath d = parent +:+ rest)
        (descendants c)
    ∧ ∃ g, g ∈ c :: descendants c ∧ getType g = GAME.
Proof.
  induction c as [t p m cs IH] using FileData_tree_ind.
  intros parent H.
  inversion H as [parent' name Hstem Hext Hhid
                 |parent' name c0 cs0 Hstem Hext Hsub]; subst.
  - split; [split|split].
    + unfold scanned_file. simpl. repeat split; assumption.
    + apply path_append_extends.
    + constructor.
    + eexists. split; [apply list_elem_of_here|reflexivity].
  - destruct (path_append_extends parent name) as [rest0 Hrest0].
    assert (Hall : Forall (λ c,
              ((scanned_file ctx c ∧ ∃ rest, getPath c = parent +:+ rest)
               ∧ Forall (λ d, scanned_file ctx d
                              ∧ ∃ rest, getPath d = parent +:+ rest)
                   (descendants c))
              ∧ ∃ g, g ∈ c :: descendants c ∧ getType g = GAME) (c0 :: cs0)).
    { rewrite Forall_forall in IH, Hsub. apply Forall_forall. intros x Hx.
      destruct (IH x Hx (parent // name) (Hsub x Hx))
        as ((Hfile & r & Hr) & Hdesc & Hgame).
      split; [split|exact Hgame].
      - split; [exact Hfile|]. exists (rest0 +:+ r).
        by rewrite Hr, Hrest0, string_append_assoc.
      - eapply Forall_impl; [exact Hdesc|]. intros d [Hd [r' Hr']].
        split; [exact Hd|]. exists (rest0 +:+ r').
        by rewrite Hr', Hrest0, string_append_assoc. }
    split; [split|split].
    + unfold scanned_file. simpl. repeat split; [exact Hstem| |exact Hext].
      discriminate.
    + exists rest0. exact Hrest0.
    + change (descendants (mkFileData FOLDER (parent // name) [] (c0 :: cs0)))
        with (flat_map (λ c, c :: descendants c) (c0 :: cs0)).
      apply (Forall_descendants
               (λ d, scanned_file ctx d ∧ ∃ rest, getPath d = parent +:+ rest)).
      eapply Forall_impl; [exact Hall|]. intros x [Hx _]. exact Hx.
    + apply Forall_cons in Hall as [[_ (g & Hg & Hgame)] _].
      exists g. split; [|exact Hgame].
      apply list_elem_of_further.
      change (descendants (mkFileData FOLDER (parent // name) [] (c0 :: cs0)))
        with ((c0 :: descendants c0)
              ++ flat_map (λ c, c :: descendants c) cs0).
      apply elem_of_app. left. exact Hg.
Qed.

Lemma descendants_add_children t p m new :
  descendants (add_children (mkFileData t p m []) new)
  = flat_map (λ c, c :: descendants c) new.
Proof. reflexivity. Qed.

(** X2. Whatever is found at the folder's path, [populateFolder] only adds
    children: the type, the path and the metadata of the folder stay, and
    the children it had come first, unchanged. *)
Theorem populateFolder_only_appends (ctx : ScanContext) (node : fs_node)
    (folder : FileData) :
  getType (populateFolder ctx node folder) = getType folder
  ∧ getPath (populateFolder ctx node folder) = getPath folder
  ∧ getMetadata (populateFolder ctx node folder) = getMetadata folder
  ∧ getChildren folder `prefix_of` getChildren (populateFolder ctx node folder).
Proof.
  destruct (populateFolder_appends_scanned ctx node folder) as (new & E & _).
  rewrite E. destruct folder as [t p m cs]. simpl.
  repeat split. exists new. reflexivity.
Qed.

(** X3. In the tree that [populateFolder] builds in a folder without
    children, every file has a path that starts with the folder's path and
    a non-empty stem; every GAME is a leaf whose extension is one of the
    search extensions and, unless hidden files are shown, whose filename
    does not start with a dot; every FOLDER has a child and an extension
    that is not a search extension. *)
Theorem populateFolder_tree_files (ctx : ScanContext) (node : fs_node)
    (folder : FileData) :
  getChildren folder = [] →
  Forall (λ d, scanned_file ctx d
               ∧ String.prefix (getPath folder) (getPath d) = true)
    (descendants (populateFolder ctx node folder)).
Proof.
  intros Hfresh.
  destruct (populateFolder_appends_scanned ctx node folder) as (new & E & Hs).
  rewrite E. destruct folder as [t p m cs]. simpl in Hfresh, Hs. subst cs.
  rewrite descendants_add_children.
  apply (Forall_descendants
           (λ d, scanned_file ctx d ∧ String.prefix p (getPath d) = true)).
  eapply Forall_impl; [exact Hs|]. intros c Hc.
  destruct (Scanned_tree ctx c p Hc) as ((Hfile & r & Hr) & Hdesc & _).
  split.
  - split; [exact Hfile|]. rewrite Hr. apply prefix_append.
  - eapply Forall_impl; [exact Hdesc|]. intros d [Hd [r' Hr']].
    split; [exact Hd|]. rewrite Hr'. apply prefix_append.
Qed.

Lemma populateFolder_tree_files_witness :
  Forall (λ d, scanned_file nes_ctx d
               ∧ String.prefix (getPath nes_root) (getPath d) = true)
    (descendants (populateFolder nes_ctx (fs_dir None nes_entries) nes_root)).
Proof. apply populateFolder_tree_files. reflexivity. Defined.

(** X4. A folder without children has a child after [populateFolder] if
    and only if the tree built holds a GAME: the test
    [getChildrenByFilename().size() == 0] that [populateFolder] applies to
    a subfolder it has just scanned drops exactly the subfolders below
    which the scan found no game. *)
Theorem populateFolder_child_iff_game (ctx : ScanContext) (node : fs_node)
    (folder : FileData) :
  getChildren folder = [] →
  getChildren (populateFolder ctx node folder) ≠ []
  ↔ ∃ g, g ∈ descendants (populateFolder ctx node folder) ∧ getType g = GAME.
Proof.
  intros Hfresh.
  destruct (populateFolder_appends_scanned ctx node folder) as (new & E & Hs).
  rewrite E. destruct folder as [t p m cs]. simpl in Hfresh, Hs. subst cs.
  rewrite descendants_add_children. simpl. split.
  - intros Hne. destruct new as [|c new]; [contradiction|].
    apply Forall_cons in Hs as [Hc _].
    destruct (Scanned_tree ctx c p Hc) as (_ & _ & g & Hg & Hgame).
    exists g. split; [|exact Hgame]. simpl.
    apply elem_of_cons in Hg as [->|Hg].
    + apply list_elem_of_here.
    + apply list_elem_of_further. apply elem_of_app. left. exact Hg.
  - intros (g & Hg & _) Hnil. subst new. inversion Hg.
Qed.

Lemma populateFolder_child_iff_game_witness :
  getChildren (populateFolder nes_ctx (fs_dir None nes_entries) nes_root) ≠ []
  ↔ ∃ g, g ∈ descendants
             (populateFolder nes_ctx (fs_dir None nes_entries) nes_root)
         ∧ getType g = GAME.
Proof. apply populateFolder_child_iff_game. reflexivity. Defined.

(** ** readList: joining and splitting *)

Section TokensAlgebra.

Variable delims : list ascii.

Lemma Tokens_prepend_delims ds l ts :
  Forall (λ c, c ∈ delims) ds →
  Tokens delims l ts → Tokens delims (ds ++ l) ts.
Proof.
  intros Hds H.
  inversion H as [ds' Hds'|ds' tok rest ts' Hds' Hne Htok Hb Hrest]; subst.
  - constructor. apply Forall_app. split; assumption.
  - rewrite (app_assoc ds ds'). constructor; try assumption.
    apply Forall_app. split; assumption.
Qed.

Lemma Tokens_split a b c ta tb :
  c ∈ delims →
  Tokens delims a ta → Tokens delims b tb →
  Tokens delims (a ++ c :: b) (ta ++ tb).
Proof.
  intros Hc Ha Hb.
  induction Ha as [ds Hds|ds tok rest ts Hds Hne Htok Hbound Hrest IH]; simpl.
  - replace (ds ++ c :: b) with ((ds ++ [c]) ++ b)
      by (rewrite <- app_assoc; reflexivity).
    apply Tokens_prepend_delims; [|exact Hb].
    apply Forall_app. split; [exact Hds|]. constructor; [exact Hc|constructor].
  - rewrite <- !app_assoc. constructor; try assumption.
    destruct rest as [|x rest]; simpl; [exact Hc|exact Hbound].
Qed.

Lemma Tokens_join c ts :
  c ∈ delims →
  Forall (λ t, t ≠ [] ∧ Forall (λ x, x ∉ delims) t) ts →
  Tokens delims (join_with c ts) ts.
Proof.
  intros Hc Hts. induction Hts as [|t ts [Hne Ht] Hts IH].
  - constructor. constructor.
  - destruct ts as [|t' ts].
    + assert (H : Tokens delims ([] ++ t ++ []) [t]).
      { apply Tokens_next;
          [constructor|exact Hne|exact Ht|exact I|constructor; constructor]. }
      simpl in H. rewrite app_nil_r in H. exact H.
    + change (join_with c (t :: t' :: ts))
        with (t ++ c :: join_with c (t' :: ts)).
      apply (Tokens_next delims [] t (c :: join_with c (t' :: ts)) (t' :: ts));
        [constructor|exact Hne|exact Ht|exact Hc|].
      apply (Tokens_prepend_delims [c]); [|exact IH].
      constructor; [exact Hc|constructor].
Qed.

End TokensAlgebra.

(** X5. Writing delimiter-free, non-empty tokens one after the other with
    one delimiter between them and reading the string back with [readList]
    gives the tokens again. *)
Theorem readList_join_round_trip (delims : list ascii) (c : ascii)
    (ts : list (list ascii)) :
  c ∈ delims →
  Forall (λ t, t ≠ [] ∧ Forall (λ x, x ∉ delims) t) ts →
  StdString.size (join_with c ts) < npos →
  readList_chars (join_with c ts) delims = Some (Returns ts).
Proof.
  intros Hc Hts Hsz.
  destruct (readList_chars_tokens delims _ Hsz) as (ts' & Hrun & Htok).
  rewrite Hrun. do 2 f_equal.
  apply (Tokens_functional delims (join_with c ts)); [exact Htok|].
  apply Tokens_join; assumption.
Qed.

Lemma readList_join_round_trip_witness :
  readList_chars
    (join_with ","
       [list_ascii_of_string ".nes"; list_ascii_of_string ".NES";
        list_ascii_of_string ".zip"])
    default_delims
  = Some (Returns [list_ascii_of_string ".nes"; list_ascii_of_string ".NES";
                   list_ascii_of_string ".zip"]).
Proof.
  apply readList_join_round_trip.
  - by_evaluation.
  - by_evaluation.
  - vm_compute. reflexivity.
Defined.

(** X6. [readList] of two strings separated by a delimiter is the vector
    of the first followed by the vector of the second: delimiters at the
    seam, however many, add no element. *)
Theorem readList_split (delims a b : list ascii) (c : ascii) :
  c ∈ delims →
  StdString.size (a ++ c :: b) < npos →
  ∃ ta tb,
    readList_chars a delims = Some (Returns ta)
    ∧ readList_chars b delims = Some (Returns tb)
    ∧ readList_chars (a ++ c :: b) delims = Some (Returns (ta ++ tb)).
Proof.
  intros Hc Hsz.
  assert (Ha : StdString.size a < npos ∧ StdString.size b < npos).
  { unfold StdString.size in *. rewrite length_app in Hsz. simpl in Hsz.
    lia. }
  destruct Ha as [Ha Hb].
  destruct (readList_chars_tokens delims a Ha) as (ta & Hra & Hta).
  destruct (readList_chars_tokens delims b Hb) as (tb & Hrb & Htb).
  destruct (readList_chars_tokens delims _ Hsz) as (tab & Hrab & Htab).
  exists ta, tb. split; [exact Hra|]. split; [exact Hrb|].
  rewrite Hrab. do 2 f_equal.
  apply (Tokens_functional delims (a ++ c :: b)); [exact Htab|].
  apply Tokens_split; assumption.
Qed.

Lemma readList_split_witness :
  ∃ ta tb,
    readList_chars (list_ascii_of_string ".nes, ") default_delims
      = Some (Returns ta)
    ∧ readList_chars (list_ascii_of_string " .zip .7z") default_delims
      = Some (Returns tb)
    ∧ readList_chars
        (list_ascii_of_string ".nes, " ++ ","%char
           :: list_ascii_of_string " .zip .7z") default_delims
      = Some (Returns (ta ++ tb)).
Proof.
  apply readList_split.
  - by_evaluation.
  - vm_compute. reflexivity.
Defined.

(** ** The platform list of a system *)

Lemma read_platformIds_acc ext strs :
  ∀ acc,
    read_platformIds ext strs acc
    = if existsb (λ s, is_ignore (getPlatformId ext s)) strs
      then [PLATFORM_IGNORE]
      else acc ++ List.filter is_known (map (getPlatformId ext) strs).
Proof.
  induction strs as [|s strs IH]; intros acc; simpl.
  - by rewrite app_nil_r.
  - destruct (getPlatformId ext s) eqn:E; simpl.
    + apply IH.
    + reflexivity.
    + rewrite IH, <- app_assoc. reflexivity.
Qed.

(** X7. The platform list read from [<platform>] is the single id
    PLATFORM_IGNORE as soon as one of the names stands for it, whatever the
    other names are; otherwise it holds the ids of the names that are
    known, in order. It never holds PLATFORM_UNKNOWN, and it holds
    PLATFORM_IGNORE only alone. *)
Theorem read_platformIds_result (ext : Externals) (strs : list string) :
  read_platformIds ext strs []
  = (if existsb (λ s, is_ignore (getPlatformId ext s)) strs
     then [PLATFORM_IGNORE]
     else List.filter is_known (map (getPlatformId ext) strs))
  ∧ (PLATFORM_UNKNOWN ∉ read_platformIds ext strs [])
  ∧ (PLATFORM_IGNORE ∈ read_platformIds ext strs [] →
     read_platformIds ext strs [] = [PLATFORM_IGNORE]).
Proof.
  rewrite read_platformIds_acc. simpl.
  destruct (existsb (λ s, is_ignore (getPlatformId ext s)) strs).
  - split; [reflexivity|]. split; [|reflexivity].
    intros H. apply elem_of_cons in H as [H|H]; [discriminate|inversion H].
  - split; [reflexivity|].
    split; [intros H|intros H; exfalso];
      apply list_elem_of_In, filter_In in H as [_ H]; discriminate.
Qed.

(** ** Deleting systems *)

Lemma deleted_systems_events env systems :
  flat_map (SystemData_delete env) systems
  = if saves_gamelists env
    then map (λ s, EvUpdateGamelist (mName s))
           (List.filter (λ s, negb (mIsCollectionSystem s)) systems)
    else [].
Proof.
  unfold saves_gamelists, SystemData_delete.
  induction systems as [|s systems IH]; simpl.
  - destruct (negb (getBool env "IgnoreGamelist")
              && getBool env "SaveGamelistsOnExit"); reflexivity.
  - rewrite IH.
    destruct (negb (getBool env "IgnoreGamelist")
              && getBool env "SaveGamelistsOnExit"); simpl; [|reflexivity].
    destruct (mIsCollectionSystem s); reflexivity.
Qed.

(** X8. [deleteSystems] empties [sSystemVector]. When IgnoreGamelist is
    not set and SaveGamelistsOnExit is set, the gamelist of every system
    that is not a collection is updated, in the order of the vector;
    otherwise, and for collection systems always, no gamelist is touched. *)
Theorem deleteSystems_effect (env : Env) (st : State) :
  sSystemVector (deleteSystems env st) = []
  ∧ events (deleteSystems env st)
    = events st
      ++ (if saves_gamelists env
          then map (λ s, EvUpdateGamelist (mName s))
                 (List.filter (λ s, negb (mIsCollectionSystem s))
                    (sSystemVector st))
          else []).
Proof.
  split; [reflexivity|]. unfold deleteSystems. simpl.
  by rewrite deleted_systems_events.
Qed.

(** ** loadConfig: the example configuration *)

Lemma getConfigPath_read env :
  getConfigPath env false
  = if fs_exists env (home_config env) then home_config env else etc_config.
Proof. reflexivity. Qed.

Lemma SystemData_new_events ext env name fullName envData themeFolder c :
  Forall (λ e, is_write_example e = false)
    (snd (SystemData_new ext env name fullName envData themeFolder c)).
Proof.
  unfold SystemData_new. destruct c; simpl; [constructor|].
  unfold build_root.
  destruct (negb (getBool env "ParseGamelistOnly"));
    destruct (negb (getBool env "IgnoreGamelist")); simpl;
    repeat constructor.
Qed.

Lemma SystemData_delete_events env sys :
  Forall (λ e, is_write_example e = false) (SystemData_delete env sys).
Proof.
  unfold SystemData_delete.
  destruct (negb (getBool env "IgnoreGamelist")
            && getBool env "SaveGamelistsOnExit"
            && negb (mIsCollectionSystem sys)); repeat constructor.
Qed.

Lemma load_system_events ext env st system :
  ∃ evs, events (load_system ext env st system) = events st ++ evs
         ∧ Forall (λ e, is_write_example e = false) evs.
Proof.
  unfold load_system. cbv zeta.
  destruct (empty (text_get (child (Some system) "name"))
            || empty (text_get (child (Some system) "path"))
            || bool_decide
                 (readList_vec (text_get (child (Some system) "extension")) = [])
            || empty (text_get (child (Some system) "command"))).
  { exists []. split; [by rewrite app_nil_r|constructor]. }
  match goal with
  | |- context [SystemData_new ext env ?n ?f ?e ?t false] =>
      pose proof (SystemData_new_events ext env n f e t false) as Hbuilt;
      destruct (SystemData_new ext env n f e t false) as [newSys built]
  end.
  simpl in Hbuilt.
  destruct (children_count (getRootFolder newSys) =? 0)%nat; simpl.
  - exists (built ++ SystemData_delete env newSys). split; [reflexivity|].
    apply Forall_app. split; [exact Hbuilt|apply SystemData_delete_events].
  - exists built. split; [reflexivity|exact Hbuilt].
Qed.

Lemma load_systems_events ext env nodes :
  ∀ st, ∃ evs,
    events (fold_left (load_system ext env) nodes st) = events st ++ evs
    ∧ Forall (λ e, is_write_example e = false) evs.
Proof.
  induction nodes as [|n nodes IH]; intros st; simpl.
  - exists []. split; [by rewrite app_nil_r|constructor].
  - destruct (IH (load_system ext env st n)) as (evs2 & E2 & H2).
    destruct (load_system_events ext env st n) as (evs1 & E1 & H1).
    exists (evs1 ++ evs2). split.
    + rewrite E2, E1, <- app_assoc. reflexivity.
    + apply Forall_app. split; assumption.
Qed.

(** X9. After the systems loaded before have been deleted, [loadConfig]
    writes the example configuration exactly when neither the
    configuration in the home directory nor the one in
    [/etc/emulationstation] exists; it writes it to the home directory,
    does nothing else and returns false. When one of the two exists, no
    example configuration is written. *)
Theorem loadConfig_example_config (ext : Externals) (env : Env) (st : State) :
  ∃ evs,
    events (snd (loadConfig ext env st))
    = events (deleteSystems env st) ++ evs
    ∧ (fs_exists env (home_config env) = false
       ∧ fs_exists env etc_config = false →
       evs = [EvWriteExampleConfig (home_config env)]
       ∧ fst (loadConfig ext env st) = false)
    ∧ (fs_exists env (home_config env) = true
       ∨ fs_exists env etc_config = true →
       Forall (λ e, is_write_example e = false) evs).
Proof.
  unfold loadConfig. rewrite getConfigPath_read.
  destruct (fs_exists env (home_config env)) eqn:Hhome.
  - rewrite Hhome. simpl negb. cbv iota.
    destruct (xml_files env !! home_config env) as [doc|].
    2: { exists []. split; [by rewrite app_nil_r|].
         split; [intros [? _]; discriminate|constructor]. }
    destruct (first_named "systemList" doc) as [systemList|].
    2: { exists []. split; [by rewrite app_nil_r|].
         split; [intros [? _]; discriminate|constructor]. }
    destruct (load_systems_events ext env
                (children_named (Some systemList) "system")
                (deleteSystems env st)) as (evs & E & H).
    exists (evs ++ [EvLoadCollectionSystems]). cbn [snd events]. rewrite E.
    split; [by rewrite <- app_assoc|].
    split; [intros [? _]; discriminate|].
    intros _. apply Forall_app. split; [exact H|repeat constructor].
  - destruct (fs_exists env etc_config) eqn:Hetc; simpl negb; cbv iota.
    + destruct (xml_files env !! etc_config) as [doc|].
      2: { exists []. split; [by rewrite app_nil_r|].
           split; [intros [_ ?]; discriminate|constructor]. }
      destruct (first_named "systemList" doc) as [systemList|].
      2: { exists []. split; [by rewrite app_nil_r|].
           split; [intros [_ ?]; discriminate|constructor]. }
      destruct (load_systems_events ext env
                  (children_named (Some systemList) "system")
                  (deleteSystems env st)) as (evs & E & H).
      exists (evs ++ [EvLoadCollectionSystems]). cbn [snd events]. rewrite E.
      split; [by rewrite <- app_assoc|].
      split; [intros [_ ?]; discriminate|].
      intros _. apply Forall_app. split; [exact H|repeat constructor].
    + exists [EvWriteExampleConfig (home_config env)]. simpl.
      split; [reflexivity|].
      split; [intros _; split; reflexivity|].
      intros [?|?]; discriminate.
Qed.

Lemma loadConfig_example_config_witness :
  ∃ evs,
    events (snd (loadConfig plain_externals no_config_env empty_state))
    = events (deleteSystems no_config_env empty_state) ++ evs
    ∧ (fs_exists no_config_env (home_config no_config_env) = false
       ∧ fs_exists no_config_env etc_config = false →
       evs = [EvWriteExampleConfig (home_config no_config_env)]
       ∧ fst (loadConfig plain_externals no_config_env empty_state) = false)
    ∧ (fs_exists no_config_env (home_config no_config_env) = true
       ∨ fs_exists no_config_env etc_config = true →
       Forall (λ e, is_write_example e = false) evs).
Proof. apply (loadConfig_example_config plain_externals no_config_env). Defined.

(** ** The systems of the configuration *)

Lemma SystemData_new_flags ext env name fullName envData themeFolder c :
  let sys := fst (SystemData_new ext env name fullName envData themeFolder c) in
  mFullName sys = fullName ∧ mThemeFolder sys = themeFolder
  ∧ mIsGameSystem sys = negb (bool_decide (name = "retropie")).
Proof.
  unfold SystemData_new.
  destruct (if negb c then build_root ext env name fullName envData
            else (FileData_new FOLDER (EmptyString +:+ name), []))
    as [root evs].
  simpl. repeat split; reflexivity.
Qed.

(** X11. Every system that [loadConfig] registers from the configuration
    comes from a [<system>] element of it: it is not a collection system,
    it has the name and the full name of the element, its theme folder is
    the text of [<theme>], or the name when there is none, and it is a game
    system unless its name is ["retropie"]. *)
Theorem configured_systems_origin (ext : Externals) (env : Env) :
  Forall
    (λ sys,
      mIsCollectionSystem sys = false
      ∧ (isGameSystem sys = true ↔ mName sys ≠ "retropie")
      ∧ ∃ node, node ∈ system_nodes env
          ∧ mName sys = text_get (child (Some node) "name")
          ∧ mFullName sys = text_get (child (Some node) "fullname")
          ∧ mThemeFolder sys
            = text_as_string (child (Some node) "theme") (mName sys))
    (configured_systems ext env).
Proof.
  unfold configured_systems. apply Forall_forall. intros sys Hsys.
  apply list_elem_of_In, in_flat_map in Hsys as (node & Hnode & Hsys).
  unfold entry_registers in Hsys.
  destruct (entry_valid node
            && negb (children_count (getRootFolder (entry_system ext env node))
                     =? 0)%nat); [|inversion Hsys].
  destruct Hsys as [<-|[]].
  unfold entry_system, isGameSystem. cbv zeta.
  match goal with
  | |- context [SystemData_new ext env ?n ?f ?e ?t false] =>
      destruct (SystemData_new_fields ext env n f e t false) as (E1 & _ & E3);
      destruct (SystemData_new_flags ext env n f e t false) as (F1 & F2 & F3)
  end.
  rewrite E1, E3, F1, F2, F3.
  split; [reflexivity|]. split.
  - rewrite negb_true_iff. apply bool_decide_eq_false.
  - exists node. split; [by apply list_elem_of_In|]. repeat split; reflexivity.
Qed.

Lemma getThemePath_cases ext env sys :
  (fs_exists env (root_theme sys) = true
   ∧ getThemePath ext env sys = root_theme sys)
  ∨ (fs_exists env (root_theme sys) = false
     ∧ fs_exists env (set_theme ext sys) = true
     ∧ getThemePath ext env sys = set_theme ext sys)
  ∨ (fs_exists env (root_theme sys) = false
     ∧ fs_exists env (set_theme ext sys) = false
     ∧ getThemePath ext env sys = default_theme ext sys).
Proof.
  unfold getThemePath, root_theme, set_theme, default_theme.
  destruct (fs_exists env (getPath (mRootFolder sys) // "theme.xml"));
    [left; split; reflexivity|right].
  destruct (fs_exists env (getThemeFromCurrentSet ext (mThemeFolder sys)));
    [left|right]; repeat split; reflexivity.
Qed.

(** X12. The theme of a constructed system is never a file that does not
    exist: if the system has a theme, its file exists, it loaded without a
    ThemeException and it is the first that exists of the theme in the root
    folder and the theme of the system in the theme set, or else the
    default theme of the set; a system is left with the empty theme exactly
    when the path found does not exist or does not load. *)
Theorem SystemData_new_theme (ext : Externals) (env : Env)
    (name fullName : string) (envData : SystemEnvironmentData)
    (themeFolder : string) (collection : bool) :
  let sys :=
    fst (SystemData_new ext env name fullName envData themeFolder collection) in
  match mTheme sys with
  | Some p =>
      fs_exists env p = true ∧ themeLoads ext p = true
      ∧ p = getThemePath ext env sys
      ∧ (p = root_theme sys
         ∨ (fs_exists env (root_theme sys) = false ∧ p = set_theme ext sys)
         ∨ (fs_exists env (root_theme sys) = false
            ∧ fs_exists env (set_theme ext sys) = false
            ∧ p = default_theme ext sys))
  | None =>
      fs_exists env (getThemePath ext env sys) = false
      ∨ themeLoads ext (getThemePath ext env sys) = false
  end.
Proof.
  unfold SystemData_new.
  destruct (if negb collection then build_root ext env name fullName envData
            else (FileData_new FOLDER (EmptyString +:+ name), []))
    as [root evs].
  cbv zeta. simpl fst.
  match goal with
  | |- context [loadTheme ext env ?s] => set (sys0 := s)
  end.
  assert (Hpath : getThemePath ext env (loadTheme ext env sys0)
                  = getThemePath ext env sys0) by reflexivity.
  rewrite Hpath.
  change (root_theme (loadTheme ext env sys0)) with (root_theme sys0).
  change (set_theme ext (loadTheme ext env sys0)) with (set_theme ext sys0).
  change (default_theme ext (loadTheme ext env sys0))
    with (default_theme ext sys0).
  destruct (getThemePath_cases ext env sys0) as [(H1 & E)|[(H1 & H2 & E)|(H1 & H2 & E)]];
    unfold loadTheme; simpl mTheme;
    destruct (fs_exists env (getThemePath ext env sys0)) eqn:Hex; simpl;
    try (left; reflexivity);
    destruct (themeLoads ext (getThemePath ext env sys0)) eqn:Hload;
    try (right; reflexivity);
    (split; [exact Hex|]; split; [exact Hload|]; split; [reflexivity|]);
    rewrite E; tauto.
Qed.

(** ** Random selection at the ends of the range *)

Section RandomExtremes.

Variable pf : Platform.
Hypothesis pf_ok : ieee_like pf.

Lemma fl_Qeq (x y : Q) : (x == y)%Q → (fl pf x == fl pf y)%Q.
Proof.
  intros H. apply Qle_antisym; apply (fl_monotone pf pf_ok); rewrite H;
    apply Qle_refl.
Qed.

Lemma fl_of_integer (x : Q) (z : Z) :
  0 <= z <= 2 ^ 32 → (x == inject_Z z)%Q → (fl pf x == inject_Z z)%Q.
Proof.
  intros Hz H. rewrite (fl_Qeq _ _ H). apply (fl_integer pf pf_ok). exact Hz.
Qed.

Lemma scaled_at_zero (m : Z) :
  (fl pf (fl pf (inject_Z 0 / inject_Z (RAND_MAX pf)) * inject_Z m)
   == inject_Z 0)%Q.
Proof.
  apply fl_of_integer; [lia|].
  rewrite (fl_of_integer (inject_Z 0 / inject_Z (RAND_MAX pf)) 0); [|lia|].
  - apply Qmult_0_l.
  - unfold Qdiv. apply Qmult_0_l.
Qed.

Lemma scaled_at_RAND_MAX (m : Z) :
  0 <= m <= 2 ^ 32 →
  (fl pf (fl pf (inject_Z (RAND_MAX pf) / inject_Z (RAND_MAX pf)) * inject_Z m)
   == inject_Z m)%Q.
Proof.
  intros Hm. pose proof (RAND_MAX_pos pf pf_ok) as HR.
  apply fl_of_integer; [exact Hm|].
  rewrite (fl_of_integer
             (inject_Z (RAND_MAX pf) / inject_Z (RAND_MAX pf)) 1); [|lia|].
  - apply Qmult_1_l.
  - unfold Qdiv. apply Qmult_inv_r. intros H.
    assert (Hlt : (inject_Z 0 < inject_Z (RAND_MAX pf))%Q)
      by (rewrite <- Zlt_Qlt; exact HR).
    rewrite H in Hlt. discriminate.
Qed.

End RandomExtremes.

Lemma round_half_away_integer (x : Q) (z : Z) :
  0 <= z → (x == inject_Z z)%Q → round_half_away x = z.
Proof.
  intros Hz H.
  assert (H0 : (0 <= x)%Q).
  { rewrite H. change (inject_Z 0 <= inject_Z z)%Q. rewrite <- Zle_Qle. lia. }
  assert (Hle : (x <= inject_Z z)%Q) by (rewrite H; apply Qle_refl).
  pose proof (round_half_away_bounds x z H0 Hle) as [_ Hupper].
  apply Z.le_antisymm; [exact Hupper|].
  unfold round_half_away.
  assert (Hb : Qle_bool 0 x = true) by (apply Qle_bool_iff; exact H0).
  rewrite Hb. rewrite <- (Qfloor_Z z) at 1. apply Qfloor_resp_le.
  rewrite H. rewrite <- (Qplus_0_r (inject_Z z)) at 1.
  apply Qplus_le_compat; [apply Qle_refl|discriminate].
Qed.

Lemma random_target_at_zero pf m :
  ieee_like pf → random_target pf 0 m = Returns 0.
Proof.
  intros Hpf. unfold random_target.
  rewrite (round_half_away_integer _ 0); [reflexivity|lia|].
  apply scaled_at_zero. exact Hpf.
Qed.

Lemma random_target_at_RAND_MAX pf m :
  ieee_like pf → 0 <= m <= INT_MAX →
  random_target pf (RAND_MAX pf) m = Returns m.
Proof.
  intros Hpf Hm. unfold INT_MAX in Hm. unfold random_target.
  rewrite (round_half_away_integer _ m); [|lia|].
  - unfold INT_MIN, INT_MAX.
    destruct (Z.leb_spec (- 2 ^ 31) m); [|lia].
    destruct (Z.leb_spec m (2 ^ 31 - 1)); [reflexivity|lia].
  - apply scaled_at_RAND_MAX; [exact Hpf|lia].
Qed.

(** X13. With a game system in [sSystemVector] (of at most [2^31]
    systems), [getRandomSystem] returns the first game system of the vector
    when [std::rand()] gives [0] and the last one when it gives
    [RAND_MAX]. *)
Theorem getRandomSystem_extremes (pf : Platform) (st : State) :
  ieee_like pf →
  Z.of_nat (length (sSystemVector st)) <= 2 ^ 31 →
  game_systems (sSystemVector st) ≠ [] →
  (∃ s, head (game_systems (sSystemVector st)) = Some s
        ∧ getRandomSystem pf 0 st = Returns s)
  ∧ (∃ s, last (game_systems (sSystemVector st)) = Some s
          ∧ getRandomSystem pf (RAND_MAX pf) st = Returns s).
Proof.
  intros Hpf Hlen Hne. unfold getRandomSystem.
  pose proof (game_systems_length (sSystemVector st)) as Hle.
  assert (Hpos : 1 <= Z.of_nat (length (game_systems (sSystemVector st))))
    by (destruct (game_systems (sSystemVector st)); [contradiction|simpl; lia]).
  rewrite count_game_systems_length by lia.
  rewrite wrap32_small by lia.
  rewrite random_target_at_zero by exact Hpf.
  rewrite random_target_at_RAND_MAX by (try exact Hpf; unfold INT_MAX; lia).
  split.
  - destruct (pick_system_game_system (sSystemVector st) 0) as (s & Hs & Hl);
      [lia|].
    exists s. split; [|exact Hs]. rewrite head_lookup. exact Hl.
  - destruct (pick_system_game_system (sSystemVector st)
                (Z.of_nat (length (game_systems (sSystemVector st))) - 1))
      as (s & Hs & Hl); [lia|].
    exists s. split; [|exact Hs]. rewrite last_lookup.
    replace (pred (length (game_systems (sSystemVector st))))
      with (Z.to_nat (Z.of_nat (length (game_systems (sSystemVector st))) - 1))
      by lia.
    exact Hl.
Qed.

Lemma getRandomSystem_extremes_witness :
  (∃ s, head (game_systems [retropie_system; filtered_system;
                            unfiltered_system]) = Some s
        ∧ getRandomSystem (exact_platform 32767) 0
            {| sSystemVector := [retropie_system; filtered_system;
                                 unfiltered_system];
               events := [] |} = Returns s)
  ∧ (∃ s, last (game_systems [retropie_system; filtered_system;
                              unfiltered_system]) = Some s
          ∧ getRandomSystem (exact_platform 32767) 32767
              {| sSystemVector := [retropie_system; filtered_system;
                                   unfiltered_system];
                 events := [] |} = Returns s).
Proof.
  apply (getRandomSystem_extremes (exact_platform 32767)
           {| sSystemVector := [retropie_system; filtered_system;
                                unfiltered_system];
              events := [] |}).
  - apply exact_platform_ieee_like. reflexivity.
  - simpl. lia.
  - simpl. discriminate.
Defined.

(** X14. With a displayed game (and at most [2^31] of them),
    [getRandomGame] returns the first game of the displayed list when
    [std::rand()] gives [0] and the last one when it gives [RAND_MAX]. *)
Theorem getRandomGame_extremes (pf : Platform) (sys : SystemData) :
  ieee_like pf →
  Z.of_nat (length (displayed_games sys)) <= 2 ^ 31 →
  displayed_games sys ≠ [] →
  getRandomGame pf 0 sys = Returns (head (displayed_games sys))
  ∧ getRandomGame pf (RAND_MAX pf) sys = Returns (last (displayed_games sys)).
Proof.
  intros Hpf Hlen Hne. unfold getRandomGame. fold (displayed_games sys).
  assert (Hpos : 1 <= Z.of_nat (length (displayed_games sys)))
    by (destruct (displayed_games sys); [contradiction|simpl; lia]).
  rewrite (wrap32_small (Z.of_nat _)) by lia.
  destruct (Z.eqb_spec (Z.of_nat (length (displayed_games sys))) 0); [lia|].
  rewrite wrap32_small by lia.
  rewrite random_target_at_zero by exact Hpf.
  rewrite random_target_at_RAND_MAX by (try exact Hpf; unfold INT_MAX; lia).
  split.
  - destruct (vector_at_in_range (displayed_games sys) 0) as (x & Hx & Hl);
      [lia|lia|].
    rewrite Hx, head_lookup. change (Z.to_nat 0) with 0%nat in Hl.
    rewrite Hl. reflexivity.
  - destruct (vector_at_in_range (displayed_games sys)
                (Z.of_nat (length (displayed_games sys)) - 1))
      as (x & Hx & Hl); [lia|lia|].
    rewrite Hx, last_lookup.
    replace (pred (length (displayed_games sys)))
      with (Z.to_nat (Z.of_nat (length (displayed_games sys)) - 1)) by lia.
    rewrite Hl. reflexivity.
Qed.

Lemma getRandomGame_extremes_witness :
  getRandomGame (exact_platform 32767) 0 unfiltered_system
  = Returns (head (displayed_games unfiltered_system))
  ∧ getRandomGame (exact_platform 32767) 32767 unfiltered_system
    = Returns (last (displayed_games unfiltered_system)).
Proof.
  apply (getRandomGame_extremes (exact_platform 32767) unfiltered_system).
  - apply exact_platform_ieee_like. reflexivity.
  - vm_compute. discriminate.
  - vm_compute. discriminate.
Defined.

(** ** What leaves no trace *)

(** X15. The systems registered from the configuration keep the order of
    their [<system>] elements, and each element gives at most one system:
    their names are a sublist of the names of the elements. *)
Theorem configured_systems_order (ext : Externals) (env : Env) :
  map mName (configured_systems ext env)
  `sublist_of` map (λ node, text_get (child (Some node) "name"))
                 (system_nodes env).
Proof.
  unfold configured_systems.
  induction (system_nodes env) as [|node nodes IH]; simpl; [constructor|].
  rewrite map_app. unfold entry_registers at 1.
  destruct (entry_valid node
            && negb (children_count (getRootFolder (entry_system ext env node))
                     =? 0)%nat); simpl.
  - destruct (entry_system_fields ext env node) as (E & _). rewrite E.
    apply sublist_skip. exact IH.
  - apply sublist_cons. exact IH.
Qed.

(** X16. A directory entry that is a symbolic link resolving to a prefix
    of its own path, and whose extension is not a search extension, leaves
    no trace in the folder, whatever the link points to: the scan gives
    what it gives without the entry. *)
Theorem populateFolder_recursive_symlink_entry (ctx : ScanContext)
    (link : option string) (before after inside : list (string * fs_node))
    (name canonical : string) (folder : FileData) :
  Path.extension (getPath folder // name) ∉ searchExtensions ctx →
  String.prefix canonical (getPath folder // name) = true →
  populateFolder ctx
    (fs_dir link (before ++ (name, fs_dir (Some canonical) inside) :: after))
    folder
  = populateFolder ctx (fs_dir link (before ++ after)) folder.
Proof.
  intros Hext Hloop. simpl.
  destruct (symlink_recurses link (getPath folder)); [reflexivity|].
  rewrite !populateFolder_fold, !flat_map_app. do 2 f_equal. simpl.
  unfold entry_children at 1. simpl fst. simpl snd.
  destruct (empty (Path.stem (getPath folder // name))); [reflexivity|].
  rewrite (bool_decide_eq_false_2 _ Hext). simpl.
  rewrite Hloop. reflexivity.
Qed.

Lemma populateFolder_recursive_symlink_entry_witness :
  populateFolder nes_ctx
    (fs_dir None
       ([("mario.nes", fs_file)]
        ++ ("loop", fs_dir (Some "/roms/nes") nes_entries)
           :: [("readme.txt", fs_file)]))
    nes_root
  = populateFolder nes_ctx
      (fs_dir None ([("mario.nes", fs_file)] ++ [("readme.txt", fs_file)]))
      nes_root.
Proof.
  apply populateFolder_recursive_symlink_entry.
  - by_evaluation.
  - vm_compute. reflexivity.
Defined.

Lemma readList_vec_blank (s : string) :
  StdString.size (list_ascii_of_string s) < npos →
  Forall (λ c, c ∈ default_delims) (list_ascii_of_string s) →
  readList_vec s = [].
Proof.
  intros Hsz Hall. unfold readList_vec, readList.
  destruct (readList_chars_tokens default_delims _ Hsz) as (ts & Hrun & Htok).
  rewrite Hrun.
  assert (E : ts = []).
  { apply (Tokens_functional default_delims (list_ascii_of_string s));
      [exact Htok|]. constructor. exact Hall. }
  rewrite E. reflexivity.
Qed.

(** X17. A [<system>] element whose [<extension>] holds nothing but
    delimiters is treated like one without extensions: the round of the
    loop changes nothing, neither [sSystemVector] nor anything outside. *)
Theorem load_system_blank_extension (ext : Externals) (env : Env)
    (st : State) (system : xml_node) :
  StdString.size
    (list_ascii_of_string (text_get (child (Some system) "extension")))
    < npos →
  Forall (λ c, c ∈ default_delims)
    (list_ascii_of_string (text_get (child (Some system) "extension"))) →
  load_system ext env st system = st
  ∧ entry_registers ext env system = [].
Proof.
  intros Hsz Hall.
  pose proof (readList_vec_blank _ Hsz Hall) as Hblank.
  split.
  - unfold load_system. cbv zeta. rewrite Hblank.
    rewrite (bool_decide_eq_true_2 ([] = [])) by reflexivity.
    rewrite orb_true_r. simpl. reflexivity.
  - unfold entry_registers, entry_valid. rewrite Hblank.
    rewrite (bool_decide_eq_true_2 ([] = [])) by reflexivity.
    rewrite orb_true_r. reflexivity.
Qed.

Lemma load_system_blank_extension_witness :
  load_system plain_externals pi_env empty_state blank_extension_node
  = empty_state
  ∧ entry_registers plain_externals pi_env blank_extension_node = [].
Proof.
  apply load_system_blank_extension.
  - vm_compute. reflexivity.
  - by_evaluation.
Defined.
